(** * kusto_explorer: a shallow embedding of [kusto_explorer.py]

    The script parses one argument, opens a Kusto client, lists the
    databases of the cluster, lists the tables of each database and prints
    the result as a tree.  Everything the script does is an effect (log
    lines, printed lines, calls into the Azure libraries, exceptions,
    [sys.exit]), so the embedding is a state-and-exception monad over an
    explicit event trace, and the collaborators the script calls
    (argparse, azure.identity, azure.kusto.data) are an oracle [World]. *)

From Stdlib Require Import List String Ascii ZArith Lia Bool Arith.
From Stdlib Require Import DecimalString.
Import ListNotations.

Local Open Scope string_scope.
Local Open Scope list_scope.
Local Open Scope Z_scope.

(** String concatenation, as an f-string joins its pieces. *)
Infix "+:+" := String.append (at level 60, right associativity).

(** ** Python values and exceptions *)

(** The exceptions the script distinguishes.  [except Exception] catches
    every instance of [Exception]; [KeyboardInterrupt] and [SystemExit]
    derive from [BaseException] only and pass through such a clause.
    [Exception_ msg] stands for any instance [e] of [Exception] with
    [str(e) = msg], the only thing the handlers read from [e]. *)
Inductive exn : Type :=
| Exception_ (msg : string)
| KeyboardInterrupt
| SystemExit (code : Z).

Definition is_Exception (e : exn) : bool :=
  match e with Exception_ _ => true | _ => false end.

Inductive Outcome (A : Type) : Type :=
| Ok (a : A)
| Raise (e : exn).
Arguments Ok {A} a.
Arguments Raise {A} e.

(** [len(l)] and [enumerate(l)] on Python lists; indices are Python ints. *)
Definition len {A : Type} (l : list A) : Z := Z.of_nat (List.length l).

Fixpoint enumerate_from {A : Type} (i : Z) (l : list A) : list (Z * A) :=
  match l with
  | [] => []
  | x :: l' => (i, x) :: enumerate_from (i + 1) l'
  end.

Definition enumerate {A : Type} (l : list A) : list (Z * A) :=
  enumerate_from 0 l.

(** [str(n)] for a non-negative int, as an f-string formats it. *)
Definition str_of_len (n : Z) : string :=
  NilEmpty.string_of_uint (Nat.to_uint (Z.to_nat n)).

(** ** The database-to-tables dict

    [dict[str, list[str]]] keeps insertion order: assigning to a key that is
    already present replaces the value and leaves the key where it is,
    assigning to a new key appends it.  An association list in that order. *)
Definition Dict : Type := list (string * list string).

Fixpoint dict_set (d : Dict) (k : string) (v : list string) : Dict :=
  match d with
  | [] => [(k, v)]
  | (k', v') :: d' =>
      if String.eqb k' k then (k', v) :: d'
      else (k', v') :: dict_set d' k v
  end.

Fixpoint dict_get (d : Dict) (k : string) : option (list string) :=
  match d with
  | [] => None
  | (k', v') :: d' => if String.eqb k' k then Some v' else dict_get d' k
  end.

Definition keys (d : Dict) : list string := map fst d.

(** ** Results of a management command

    [result.primary_results[0]] is a table whose rows are read by column
    name. *)
Definition Row : Type := list (string * string).

Record KustoResponseDataSet : Type := mkResponse {
  primary_results : list (list Row)
}.

(** [l[0]]: [IndexError] on an empty list. *)
Definition getitem_0 {A : Type} (l : list A) : Outcome A :=
  match l with
  | x :: _ => Ok x
  | [] => Raise (Exception_ "list index out of range")
  end.

(** [row[col]]: [KeyError] when the row has no such column. *)
Fixpoint row_getitem (row : Row) (col : string) : Outcome string :=
  match row with
  | [] => Raise (Exception_ ("'" +:+ col +:+ "'"))
  | (c, v) :: row' => if String.eqb c col then Ok v else row_getitem row' col
  end.

(** [[row[col] for row in rows]]: rows are read in order, the first failure
    raises. *)
Fixpoint column (col : string) (rows : list Row) : Outcome (list string) :=
  match rows with
  | [] => Ok []
  | row :: rows' =>
      match row_getitem row col with
      | Raise e => Raise e
      | Ok v =>
          match column col rows' with
          | Raise e => Raise e
          | Ok vs => Ok (v :: vs)
          end
      end
  end.

(** ** Events, state and the collaborators *)

(** What a run does to the outside, in order. *)
Inductive Event : Type :=
| LogInfo (msg : string)            (* logger.info(msg) *)
| LogException (msg : string)       (* logger.exception(msg) *)
| Print (line : string)             (* print(line) *)
| PrintExc                          (* traceback.print_exc() *)
| CallParseArgs                     (* parser.parse_args() *)
| CallCredential                    (* DefaultAzureCredential() *)
| CallConnectionString (url : string)
| CallClient                        (* KustoClient(connection_string) *)
| CallMgmt (database command : string). (* client.execute_mgmt(...) *)

Definition Credential : Type := nat.
Definition ConnectionString : Type := (string * Credential)%type.
Definition KustoClient : Type := ConnectionString.

(** The libraries the script calls and does not define.  Each call either
    returns or raises; [server], which answers [client.execute_mgmt], sees
    the events so far, so a server may answer the same command differently
    on a later call. *)
Record World : Type := mkWorld {
  argparse_result : Outcome string;
  DefaultAzureCredential : Outcome Credential;
  with_azure_token_credential : string -> Credential -> Outcome ConnectionString;
  KustoClient_init : ConnectionString -> Outcome KustoClient;
  server : list Event -> KustoClient -> string -> string ->
           Outcome KustoResponseDataSet
}.

(** A reference to a dict object on the heap. *)
Definition ref : Type := nat.

(** [interrupt = Some k]: the user presses Ctrl-C after [k] more effects,
    and [KeyboardInterrupt] is raised at the effect after those.
    [interrupt = None]: nobody interrupts the run. *)
Record State : Type := mkState {
  trace : list Event;
  interrupt : option nat;
  heap : list Dict
}.

Definition set_trace (s : State) (t : list Event) : State :=
  mkState t (interrupt s) (heap s).
Definition set_interrupt (s : State) (i : option nat) : State :=
  mkState (trace s) i (heap s).
Definition set_heap (s : State) (h : list Dict) : State :=
  mkState (trace s) (interrupt s) h.

(** ** The monad: state passing with Python exceptions

    A raised exception keeps the state reached so far. *)
Definition M (A : Type) : Type := State -> Outcome A * State.

Definition ret {A : Type} (a : A) : M A := fun s => (Ok a, s).

Definition bind {A B : Type} (m : M A) (f : A -> M B) : M B :=
  fun s =>
    match m s with
    | (Ok a, s') => f a s'
    | (Raise e, s') => (Raise e, s')
    end.

Definition raise {A : Type} (e : exn) : M A := fun s => (Raise e, s).

Definition lift {A : Type} (o : Outcome A) : M A := fun s => (o, s).

Declare Scope py_scope.
Delimit Scope py_scope with py.
Notation "x <- c1 ;; c2" := (bind c1 (fun x => c2))
  (at level 61, c1 at next level, right associativity) : py_scope.
Notation "c1 ;; c2" := (bind c1 (fun _ => c2))
  (at level 61, right associativity) : py_scope.
Local Open Scope py_scope.

(** [try: body / except Exception as e: handler(str(e))]. *)
Definition try_except_Exception {A : Type}
    (body : M A) (handler : string -> M A) : M A :=
  fun s =>
    match body s with
    | (Raise (Exception_ msg), s') => handler msg s'
    | r => r
    end.

(** [for x in l: body(x)]. *)
Fixpoint for_each {A : Type} (l : list A) (body : A -> M unit) : M unit :=
  match l with
  | [] => ret tt
  | x :: l' => body x ;; for_each l' body
  end.

(** Every effect is a point where a pending Ctrl-C is delivered.  Between
    two effects the script only computes on values of its own, so an
    interrupt that arrives there shows as one raised at the next effect. *)
Definition checkpoint : M unit :=
  fun s =>
    match interrupt s with
    | None => (Ok tt, s)
    | Some O => (Raise KeyboardInterrupt, set_interrupt s None)
    | Some (S k) => (Ok tt, set_interrupt s (Some k))
    end.

Definition emit (e : Event) : M unit :=
  checkpoint ;; fun s => (Ok tt, set_trace s (trace s ++ [e])).

Definition logger_info (msg : string) : M unit := emit (LogInfo msg).
Definition logger_exception (msg : string) : M unit := emit (LogException msg).
Definition print (line : string) : M unit := emit (Print line).
Definition traceback_print_exc : M unit := emit PrintExc.
Definition sys_exit {A : Type} (code : Z) : M A := raise (SystemExit code).

(** A call into a library: recorded, then answered by the oracle. *)
Definition extern {A : Type} (e : Event) (answer : list Event -> Outcome A)
    : M A :=
  emit e ;; fun s => (answer (trace s), s).

(** Dict objects. *)
Fixpoint heap_update (h : list Dict) (r : ref) (d : Dict) : list Dict :=
  match h, r with
  | [], _ => []
  | _ :: h', O => d :: h'
  | d' :: h', S r' => d' :: heap_update h' r' d
  end.

(** References come from [new_dict] only, so the program never holds a
    dangling one; reading one is made an error here. *)
Definition deref (r : ref) : M Dict :=
  fun s =>
    match nth_error (heap s) r with
    | Some d => (Ok d, s)
    | None => (Raise (Exception_ "invalid reference"), s)
    end.

(** [{}] *)
Definition new_dict : M ref :=
  fun s => (Ok (List.length (heap s)), set_heap s (heap s ++ [[]])).

(** [d[k] = v] *)
Definition dict_setitem (r : ref) (k : string) (v : list string) : M unit :=
  d <- deref r ;;
  fun s => (Ok tt, set_heap s (heap_update (heap s) r (dict_set d k v))).

(** [len(d)] *)
Definition dict_len (r : ref) : M Z := d <- deref r ;; ret (len d).

(** [d.items()], read where the loop starts: the loop body of [print_tree]
    never assigns to the dict it iterates. *)
Definition dict_items (r : ref) : M (list (string * list string)) := deref r.

(** ** The program *)

(** colorama's ANSI escape sequences ([colorama.ansi]): [ESC [ code m]. *)
Definition ESC : string := String (ascii_of_nat 27) "".

Module Fore.
Definition CYAN : string := ESC +:+ "[36m".
Definition GREEN : string := ESC +:+ "[32m".
Definition YELLOW : string := ESC +:+ "[33m".
Definition WHITE : string := ESC +:+ "[37m".
End Fore.

Module Style.
Definition BRIGHT : string := ESC +:+ "[1m".
End Style.

(** Strings are UTF-8 byte strings; the glyphs are their UTF-8 bytes. *)
Module TreeStyle.
Definition CLUSTER : string := Fore.CYAN +:+ "🌐 " +:+ Style.BRIGHT.
Definition DATABASE : string := Fore.GREEN +:+ "📁 " +:+ Style.BRIGHT.
Definition TABLE : string := Fore.YELLOW +:+ "📋 ".
Definition PIPE : string := Fore.WHITE +:+ "│ ".
Definition TEE : string := Fore.WHITE +:+ "├─".
Definition ELBOW : string := Fore.WHITE +:+ "└─".
Definition SPACE : string := "  ".
End TreeStyle.

Section Program.

Variable w : World.

(** [parse_args().cluster_url]: argparse either yields the one positional
    argument or leaves through [SystemExit]. *)
Definition parse_args : M string :=
  extern CallParseArgs (fun _ => argparse_result w).

Definition connect_to_kusto (cluster_url : string) : M KustoClient :=
  try_except_Exception
    (logger_info ("Connecting to Kusto cluster: " +:+ cluster_url) ;;
     credential <- extern CallCredential
                     (fun _ => DefaultAzureCredential w) ;;
     connection_string <-
       extern (CallConnectionString cluster_url)
         (fun _ => with_azure_token_credential w cluster_url credential) ;;
     client <- extern CallClient
                 (fun _ => KustoClient_init w connection_string) ;;
     logger_info "Successfully connected to Kusto cluster" ;;
     ret client)
    (fun e =>
       logger_exception ("Error connecting to Kusto cluster: " +:+ e) ;;
       print ("Error connecting to Kusto cluster: " +:+ e) ;;
       traceback_print_exc ;;
       sys_exit 1).

(** [client.execute_mgmt(database, command)]. *)
Definition execute_mgmt (client : KustoClient) (database command : string)
    : M KustoResponseDataSet :=
  extern (CallMgmt database command)
    (fun history => server w history client database command).

Definition get_databases (client : KustoClient) : M (list string) :=
  try_except_Exception
    (logger_info "Fetching databases" ;;
     result <- execute_mgmt client "" ".show databases" ;;
     rows <- lift (getitem_0 (primary_results result)) ;;
     databases <- lift (column "DatabaseName" rows) ;;
     logger_info ("Found " +:+ str_of_len (len databases) +:+ " databases") ;;
     ret databases)
    (fun e =>
       logger_exception ("Error fetching databases: " +:+ e) ;;
       print ("Error fetching databases: " +:+ e) ;;
       traceback_print_exc ;;
       ret []).

Definition get_tables (client : KustoClient) (database : string)
    : M (list string) :=
  try_except_Exception
    (logger_info ("Fetching tables for database: " +:+ database) ;;
     result <- execute_mgmt client database ".show tables" ;;
     rows <- lift (getitem_0 (primary_results result)) ;;
     tables <- lift (column "TableName" rows) ;;
     logger_info ("Found " +:+ str_of_len (len tables)
                  +:+ " tables in database " +:+ database) ;;
     ret tables)
    (fun e =>
       logger_exception ("Error fetching tables for database " +:+ database
                         +:+ ": " +:+ e) ;;
       print ("Error fetching tables for database " +:+ database
              +:+ ": " +:+ e) ;;
       traceback_print_exc ;;
       ret []).

End Program.

(** The table lines of one database: the inner loop of [print_tree]. *)
Definition print_tables (db_prefix : string) (tables : list string) : M unit :=
  let table_count := len tables in
  for_each (enumerate tables) (fun '(j, table) =>
    let is_last_table := j =? table_count - 1 in
    if is_last_table
    then print (db_prefix +:+ TreeStyle.ELBOW +:+ TreeStyle.TABLE +:+ table)
    else print (db_prefix +:+ TreeStyle.TEE +:+ TreeStyle.TABLE +:+ table)).

Definition print_tree (cluster_url : string) (databases_tables : ref)
    : M unit :=
  print (TreeStyle.CLUSTER +:+ cluster_url) ;;
  db_count <- dict_len databases_tables ;;
  items <- dict_items databases_tables ;;
  for_each (enumerate items) (fun '(i, (db, tables)) =>
    let is_last_db := i =? db_count - 1 in
    db_prefix <-
      (if is_last_db
       then print (TreeStyle.ELBOW +:+ TreeStyle.DATABASE +:+ db) ;;
            ret TreeStyle.SPACE
       else print (TreeStyle.TEE +:+ TreeStyle.DATABASE +:+ db) ;;
            ret TreeStyle.PIPE) ;;
    print_tables db_prefix tables).

Definition NEWLINE : string := String (ascii_of_nat 10) "".

Section Main.

Variable w : World.

(** The driving loop of [main]: a fresh dict, then one [get_tables] and one
    assignment per database name, in the order of [databases]. *)
Definition fetch_all_tables (client : KustoClient) (databases : list string)
    : M ref :=
  databases_tables <- new_dict ;;
  for_each databases (fun db =>
    tables <- get_tables w client db ;;
    dict_setitem databases_tables db tables) ;;
  ret databases_tables.

(** The body of the [try] in [main]. *)
Definition main_try : M unit :=
  cluster_url <- parse_args w ;;
  client <- connect_to_kusto w cluster_url ;;
  databases <- get_databases w client ;;
  match databases with
  | [] => print "No databases found or unable to fetch databases."
  | _ :: _ =>
      databases_tables <- fetch_all_tables client databases ;;
      print_tree cluster_url databases_tables ;;
      logger_info "Tree display completed successfully"
  end.

Definition main : M unit :=
  fun s =>
    match main_try s with
    | (Raise KeyboardInterrupt, s') =>
        (logger_info "Execution interrupted by user" ;;
         print (NEWLINE +:+ "Execution interrupted by user")) s'
    | (Raise (Exception_ e), s') =>
        (logger_exception ("Unexpected error: " +:+ e) ;;
         print ("Unexpected error: " +:+ e) ;;
         traceback_print_exc ;;
         sys_exit 1) s'
    | r => r
    end.

End Main.

(** How the interpreter ends after [main()] at module level: status 0 on a
    normal return, the argument of [sys.exit] on [SystemExit]; an uncaught
    exception ends the process with a traceback and a non-zero status. *)
Inductive ProcessEnd : Type :=
| Exited (status : Z)
| Uncaught (e : exn).

Definition process_end (o : Outcome unit) : ProcessEnd :=
  match o with
  | Ok _ => Exited 0
  | Raise (SystemExit code) => Exited code
  | Raise e => Uncaught e
  end.

(** ** Observations on a state *)

Definition initial : State := mkState [] None [].

Fixpoint printed_lines (t : list Event) : list string :=
  match t with
  | [] => []
  | Print line :: t' => line :: printed_lines t'
  | _ :: t' => printed_lines t'
  end.

Definition printed (s : State) : list string := printed_lines (trace s).

Definition is_mgmt (e : Event) : bool :=
  match e with CallMgmt _ _ => true | _ => false end.

Definition mgmt_calls (s : State) : list Event := filter is_mgmt (trace s).

Definition add_events (s : State) (es : list Event) : State :=
  set_trace s (trace s ++ es).

(** ** Vocabulary of the statements

    Closed forms of what the functions print and record, the observation
    [table_listings] of what [get_tables] returns call by call, and the
    conditions on the collaborators that the theorems name. *)

Definition table_line (db_prefix : string) (table_count : Z)
    (jt : Z * string) : string :=
  if fst jt =? table_count - 1
  then db_prefix +:+ TreeStyle.ELBOW +:+ TreeStyle.TABLE +:+ snd jt
  else db_prefix +:+ TreeStyle.TEE +:+ TreeStyle.TABLE +:+ snd jt.

Definition database_lines (db_count : Z) (x : Z * (string * list string))
    : list string :=
  let is_last_db := fst x =? db_count - 1 in
  let db := fst (snd x) in
  let tables := snd (snd x) in
  ((if is_last_db then TreeStyle.ELBOW else TreeStyle.TEE)
     +:+ TreeStyle.DATABASE +:+ db)
  :: map (table_line (if is_last_db then TreeStyle.SPACE else TreeStyle.PIPE)
            (len tables))
       (enumerate tables).

Definition tree_lines (cluster_url : string) (d : Dict) : list string :=
  (TreeStyle.CLUSTER +:+ cluster_url)
  :: flat_map (database_lines (len d)) (enumerate d).

(** What a listing makes of the answer to its management command: the
    column [col] of the first result set. *)
Definition listing (col : string) (answer : Outcome KustoResponseDataSet)
    : Outcome (list string) :=
  match answer with
  | Raise e => Raise e
  | Ok result =>
      match getitem_0 (primary_results result) with
      | Raise e => Raise e
      | Ok rows => column col rows
      end
  end.

Definition fetching_databases : list Event :=
  [LogInfo "Fetching databases"; CallMgmt "" ".show databases"].

Definition fetching_tables (database : string) : list Event :=
  [LogInfo ("Fetching tables for database: " +:+ database);
   CallMgmt database ".show tables"].

Definition databases_failed (e : string) : list Event :=
  [LogException ("Error fetching databases: " +:+ e);
   Print ("Error fetching databases: " +:+ e);
   PrintExc].

Definition tables_failed (database e : string) : list Event :=
  [LogException ("Error fetching tables for database " +:+ database
                 +:+ ": " +:+ e);
   Print ("Error fetching tables for database " +:+ database
          +:+ ": " +:+ e);
   PrintExc].

(** The lists [get_tables] returns for the names of [databases], called in
    that order. *)
Fixpoint table_listings (w : World) (client : KustoClient)
    (databases : list string) : M (list (list string)) :=
  match databases with
  | [] => ret []
  | db :: rest =>
      tables <- get_tables w client db ;;
      more <- table_listings w client rest ;;
      ret (tables :: more)
  end.

(** The assignments of the loop on a dict [d]: [d[db] = tables] for each
    name and the list fetched for it, in order. *)
Definition assign_all (d : Dict) (databases : list string)
    (results : list (list string)) : Dict :=
  fold_left (fun d' p => dict_set d' (fst p) (snd p))
    (combine databases results) d.

(** The names of [l] that are not in [seen], each at its first occurrence. *)
Fixpoint first_occurrences (seen l : list string) : list string :=
  match l with
  | [] => []
  | x :: l' =>
      if existsb (String.eqb x) seen then first_occurrences seen l'
      else x :: first_occurrences (seen ++ [x]) l'
  end.

(** A library call that fails raises an [Exception], not a
    [KeyboardInterrupt] or a [SystemExit] of its own. *)
Definition benign (w : World) : Prop :=
  forall history client database command e,
    server w history client database command = Raise e ->
    is_Exception e = true.

Definition tables_query_fails (w : World) (client : KustoClient)
    (database : string) : Prop :=
  forall history, exists e,
    server w history client database ".show tables" = Raise (Exception_ e).

Definition show_tables (database : string) : Event :=
  CallMgmt database ".show tables".

(** The content of a map in the order a reader meets it: each database
    name, then the tables of that database. *)
Inductive Entry : Type :=
| DbEntry (db : string)
| TableEntry (table : string).

Definition entries (d : Dict) : list Entry :=
  flat_map (fun kv => DbEntry (fst kv) :: map TableEntry (snd kv)) d.

Definition is_db_entry (e : Entry) : bool :=
  match e with DbEntry _ => true | TableEntry _ => false end.

(** A line of the tree showing an entry: its markers, then the name. *)
Definition shows (line : string) (e : Entry) : Prop :=
  match e with
  | DbEntry db =>
      line = TreeStyle.TEE +:+ TreeStyle.DATABASE +:+ db \/
      line = TreeStyle.ELBOW +:+ TreeStyle.DATABASE +:+ db
  | TableEntry table =>
      exists db_prefix marker,
        (db_prefix = TreeStyle.PIPE \/ db_prefix = TreeStyle.SPACE) /\
        (marker = TreeStyle.TEE \/ marker = TreeStyle.ELBOW) /\
        line = db_prefix +:+ marker +:+ TreeStyle.TABLE +:+ table
  end.

(** How the connector can fail: the step that raises, the library calls
    made up to it, and the text of the exception. *)
Inductive connector_failure (w : World) (cluster_url : string)
    : list Event -> string -> Prop :=
| credential_fails (e : string) :
    DefaultAzureCredential w = Raise (Exception_ e) ->
    connector_failure w cluster_url [CallCredential] e
| connection_string_fails (credential : Credential) (e : string) :
    DefaultAzureCredential w = Ok credential ->
    with_azure_token_credential w cluster_url credential
    = Raise (Exception_ e) ->
    connector_failure w cluster_url
      [CallCredential; CallConnectionString cluster_url] e
| client_fails (credential : Credential)
    (connection_string : ConnectionString) (e : string) :
    DefaultAzureCredential w = Ok credential ->
    with_azure_token_credential w cluster_url credential
    = Ok connection_string ->
    KustoClient_init w connection_string = Raise (Exception_ e) ->
    connector_failure w cluster_url
      [CallCredential; CallConnectionString cluster_url; CallClient] e.

Definition connection_failed (e : string) : list Event :=
  [LogException ("Error connecting to Kusto cluster: " +:+ e);
   Print ("Error connecting to Kusto cluster: " +:+ e);
   PrintExc].

(** [delivers m]: when a pending interrupt is gone after [m], [m] ended by
    raising [KeyboardInterrupt]; nothing inside [m] swallowed it. *)
Definition delivers {A : Type} (m : M A) : Prop :=
  forall s o s',
    m s = (o, s') ->
    interrupt s <> None ->
    interrupt s' = None ->
    o = Raise KeyboardInterrupt.

(** ** Example clusters *)

(** A cluster whose management commands always fail. *)
Definition failing_world : World :=
  mkWorld (Ok "https://c.kusto.windows.net") (Ok 7%nat)
    (fun url credential => Ok (url, credential))
    (fun connection_string => Ok connection_string)
    (fun _ _ _ _ => Raise (Exception_ "timed out")).

(** A cluster with the databases A, B and C, in that order; listing the
    tables of B fails, every other database has two tables. *)
Definition sample_server (history : list Event) (client : KustoClient)
    (database command : string) : Outcome KustoResponseDataSet :=
  if String.eqb command ".show databases"
  then Ok (mkResponse [[ [("DatabaseName", "C")];
                         [("DatabaseName", "B")];
                         [("DatabaseName", "A")] ]])
  else if String.eqb database "B"
       then Raise (Exception_ "access denied")
       else Ok (mkResponse [[ [("TableName", database +:+ "_z")];
                              [("TableName", database +:+ "_a")] ]]).

Definition sample_world : World :=
  mkWorld (Ok "https://c.kusto.windows.net") (Ok 7%nat)
    (fun url credential => Ok (url, credential))
    (fun connection_string => Ok connection_string)
    sample_server.

(** A cluster that returns the name A twice, with B in between, and
    answers the second query for the tables of A differently. *)
Definition repeating_server (history : list Event) (client : KustoClient)
    (database command : string) : Outcome KustoResponseDataSet :=
  if String.eqb command ".show databases"
  then Ok (mkResponse [[ [("DatabaseName", "A")];
                         [("DatabaseName", "B")];
                         [("DatabaseName", "A")] ]])
  else if String.eqb database "B"
       then Ok (mkResponse [[ [("TableName", "b")] ]])
       else if 3 <? len (filter is_mgmt history)
            then Ok (mkResponse [[ [("TableName", "second")] ]])
            else Ok (mkResponse [[ [("TableName", "first")] ]]).

Definition repeating_world : World :=
  mkWorld (Ok "https://c.kusto.windows.net") (Ok 7%nat)
    (fun url credential => Ok (url, credential))
    (fun connection_string => Ok connection_string)
    repeating_server.

(** A machine on which no ambient credential is found. *)
Definition no_credential_world : World :=
  mkWorld (Ok "https://c.kusto.windows.net")
    (Raise (Exception_ "DefaultAzureCredential failed to retrieve a token"))
    (fun url credential => Ok (url, credential))
    (fun connection_string => Ok connection_string)
    sample_server.

(** Ctrl-C after 12 effects: as the loop turns from database C to B. *)
Definition interrupted_start : State := mkState [] (Some 12%nat) [].

(** ** Vocabulary of the further properties *)

(** The table lines of one database by recursion on the list, without
    indices: the last table has the elbow, every other one the tee. *)
Fixpoint render_tables (db_prefix : string) (tables : list string)
    : list string :=
  match tables with
  | [] => []
  | table :: rest =>
      match rest with
      | [] => [db_prefix +:+ TreeStyle.ELBOW +:+ TreeStyle.TABLE +:+ table]
      | _ :: _ =>
          (db_prefix +:+ TreeStyle.TEE +:+ TreeStyle.TABLE +:+ table)
          :: render_tables db_prefix rest
      end
  end.

(** The lines below the root by recursion on the map: the last database has
    the elbow and blank indentation for its tables, every other one the tee
    and the pipe. *)
Fixpoint render_databases (d : Dict) : list string :=
  match d with
  | [] => []
  | (db, tables) :: rest =>
      match rest with
      | [] =>
          (TreeStyle.ELBOW +:+ TreeStyle.DATABASE +:+ db)
          :: render_tables TreeStyle.SPACE tables
      | _ :: _ =>
          (TreeStyle.TEE +:+ TreeStyle.DATABASE +:+ db)
          :: render_tables TreeStyle.PIPE tables ++ render_databases rest
      end
  end.

(** A line that starts with the indentation of a table line. *)
Definition indented (line : string) : bool :=
  String.prefix TreeStyle.PIPE line || String.prefix TreeStyle.SPACE line.

(** The events [es], one effect after the other. *)
Definition emit_all (es : list Event) : M unit := for_each es emit.

(** [m] does what [emit_all es] does, from every state: under every
    schedule of the interrupt too. *)
Definition emits (m : M unit) (es : list Event) : Prop :=
  forall s, m s = emit_all es s.

(** The rows have the column [col], with the values [names] in row order. *)
Definition has_column (col : string) (rows : list Row)
    (names : list string) : Prop :=
  Forall2 (fun row name => row_getitem row col = Ok name) rows names.

Definition lacks_column (col : string) (row : Row) : Prop :=
  forall v, ~ In (col, v) row.

(** What a run has done when the connector returns the client. *)
Definition connected (cluster_url : string) : list Event :=
  [LogInfo ("Connecting to Kusto cluster: " +:+ cluster_url);
   CallCredential;
   CallConnectionString cluster_url;
   CallClient;
   LogInfo "Successfully connected to Kusto cluster"].

Definition unexpected_error (e : string) : list Event :=
  [LogException ("Unexpected error: " +:+ e);
   Print ("Unexpected error: " +:+ e);
   PrintExc].

(** A cluster whose answers come with a second result set and with
    columns the script does not read. *)
Definition wide_server (history : list Event) (client : KustoClient)
    (database command : string) : Outcome KustoResponseDataSet :=
  if String.eqb command ".show databases"
  then Ok (mkResponse [[ [("DatabaseName", "D"); ("PrettyName", "d")];
                         [("PrettyName", "e"); ("DatabaseName", "E")] ];
                       [ [("DatabaseName", "hidden")] ]])
  else Ok (mkResponse [[ [("Folder", "f"); ("TableName", "z")];
                         [("TableName", "a"); ("Folder", "g")] ];
                       [ [("TableName", "other")] ]]).

Definition wide_world : World :=
  mkWorld (Ok "https://c.kusto.windows.net") (Ok 7%nat)
    (fun url credential => Ok (url, credential))
    (fun connection_string => Ok connection_string)
    wide_server.

(** A cluster whose answers have a row without the name column. *)
Definition malformed_server (history : list Event) (client : KustoClient)
    (database command : string) : Outcome KustoResponseDataSet :=
  if String.eqb command ".show databases"
  then Ok (mkResponse [[ [("DatabaseName", "D")]; [("PrettyName", "e")] ]])
  else Ok (mkResponse [[ [("TableName", "t1")];
                         [("Folder", "f")];
                         [("TableName", "t3")] ]]).

Definition malformed_world : World :=
  mkWorld (Ok "https://c.kusto.windows.net") (Ok 7%nat)
    (fun url credential => Ok (url, credential))
    (fun connection_string => Ok connection_string)
    malformed_server.

(** A cluster whose answers have no result set at all. *)
Definition empty_world : World :=
  mkWorld (Ok "https://c.kusto.windows.net") (Ok 7%nat)
    (fun url credential => Ok (url, credential))
    (fun connection_string => Ok connection_string)
    (fun _ _ _ _ => Ok (mkResponse [])).

(** A cluster whose server call is interrupted by the user. *)
Definition interrupting_world : World :=
  mkWorld (Ok "https://c.kusto.windows.net") (Ok 7%nat)
    (fun url credential => Ok (url, credential))
    (fun connection_string => Ok connection_string)
    (fun _ _ _ _ => Raise KeyboardInterrupt).

(** A command line argparse rejects, and one it cannot read at all. *)
Definition usage_error_world : World :=
  mkWorld (Raise (SystemExit 2)) (Ok 7%nat)
    (fun url credential => Ok (url, credential))
    (fun connection_string => Ok connection_string)
    sample_server.

Definition broken_argv_world : World :=
  mkWorld (Raise (Exception_ "bad argv")) (Ok 7%nat)
    (fun url credential => Ok (url, credential))
    (fun connection_string => Ok connection_string)
    sample_server.

(** * Proofs *)

(** ** Running without an interrupt *)

Lemma add_events_nil (s : State) : add_events s [] = s.
Proof.
  destruct s as [t i h]. unfold add_events, set_trace. simpl.
  now rewrite app_nil_r.
Qed.

Lemma add_events_app (s : State) (es1 es2 : list Event) :
  add_events (add_events s es1) es2 = add_events s (es1 ++ es2).
Proof.
  unfold add_events, set_trace. simpl. now rewrite app_assoc.
Qed.

Lemma interrupt_add_events (s : State) (es : list Event) :
  interrupt (add_events s es) = interrupt s.
Proof. reflexivity. Qed.

Lemma heap_add_events (s : State) (es : list Event) :
  heap (add_events s es) = heap s.
Proof. reflexivity. Qed.

Lemma trace_add_events (s : State) (es : list Event) :
  trace (add_events s es) = trace s ++ es.
Proof. reflexivity. Qed.

Lemma emit_quiet (e : Event) (s : State) :
  interrupt s = None -> emit e s = (Ok tt, add_events s [e]).
Proof.
  intros Hq. unfold emit, bind, checkpoint. now rewrite Hq.
Qed.

Lemma print_quiet (line : string) (s : State) :
  interrupt s = None -> print line s = (Ok tt, add_events s [Print line]).
Proof. apply emit_quiet. Qed.

Lemma extern_quiet {A : Type} (e : Event) (answer : list Event -> Outcome A)
    (s : State) :
  interrupt s = None ->
  extern e answer s = (answer (trace s ++ [e]), add_events s [e]).
Proof.
  intros Hq. unfold extern, bind. now rewrite (emit_quiet e s Hq).
Qed.

Lemma bind_Ok {A B : Type} (m : M A) (f : A -> M B) (s : State) (a : A)
    (s' : State) :
  m s = (Ok a, s') -> bind m f s = f a s'.
Proof. intros H. unfold bind. now rewrite H. Qed.

Lemma bind_Raise {A B : Type} (m : M A) (f : A -> M B) (s : State) (e : exn)
    (s' : State) :
  m s = (Raise e, s') -> bind m f s = (Raise e, s').
Proof. intros H. unfold bind. now rewrite H. Qed.

(** A loop whose body only appends events appends them item by item. *)
Lemma for_each_emits {A : Type} (body : A -> M unit) (out : A -> list Event) :
  (forall x s, interrupt s = None ->
               body x s = (Ok tt, add_events s (out x))) ->
  forall l s, interrupt s = None ->
              for_each l body s = (Ok tt, add_events s (flat_map out l)).
Proof.
  intros Hbody l. induction l as [|x l IH]; intros s Hq; simpl.
  - now rewrite add_events_nil.
  - unfold bind. rewrite (Hbody x s Hq).
    rewrite IH by (now rewrite interrupt_add_events).
    now rewrite add_events_app.
Qed.

(** ** The lines [print_tree] prints *)

Lemma flat_map_singleton {A B : Type} (f : A -> B) (l : list A) :
  flat_map (fun x => [f x]) l = map f l.
Proof. induction l as [|x l IH]; simpl; [reflexivity | now rewrite IH]. Qed.

Lemma print_tables_quiet (db_prefix : string) (tables : list string)
    (s : State) :
  interrupt s = None ->
  print_tables db_prefix tables s
  = (Ok tt, add_events s
              (map Print (map (table_line db_prefix (len tables))
                            (enumerate tables)))).
Proof.
  intros Hq. unfold print_tables.
  rewrite (for_each_emits _
             (fun jt => [Print (table_line db_prefix (len tables) jt)])).
  - now rewrite flat_map_singleton, map_map.
  - intros [j table] s0 Hq0. unfold table_line. simpl.
    destruct (j =? len tables - 1); now apply print_quiet.
  - exact Hq.
Qed.

Lemma print_tree_quiet (cluster_url : string) (r : ref) (d : Dict)
    (s : State) :
  interrupt s = None ->
  nth_error (heap s) r = Some d ->
  print_tree cluster_url r s
  = (Ok tt, add_events s (map Print (tree_lines cluster_url d))).
Proof.
  intros Hq Hr. unfold print_tree, bind.
  rewrite (print_quiet _ s Hq).
  unfold dict_len, dict_items, deref, bind, ret.
  rewrite heap_add_events, Hr. cbv beta iota.
  rewrite heap_add_events, Hr. cbv beta iota.
  rewrite (for_each_emits _
             (fun x => map Print (database_lines (len d) x))).
  - rewrite add_events_app. unfold tree_lines. simpl.
    do 3 f_equal.
    induction (enumerate d) as [|x l IH]; simpl; [reflexivity|].
    now rewrite map_app, IH.
  - intros [i [db tables]] s0 Hq0. unfold database_lines, bind. simpl.
    destruct (i =? len d - 1).
    + rewrite (print_quiet _ s0 Hq0). unfold ret.
      rewrite print_tables_quiet by (now rewrite interrupt_add_events).
      now rewrite add_events_app.
    + rewrite (print_quiet _ s0 Hq0). unfold ret.
      rewrite print_tables_quiet by (now rewrite interrupt_add_events).
      now rewrite add_events_app.
  - now rewrite interrupt_add_events.
Qed.

Lemma printed_lines_app (t1 t2 : list Event) :
  printed_lines (t1 ++ t2) = printed_lines t1 ++ printed_lines t2.
Proof.
  induction t1 as [|e t1 IH]; simpl; [reflexivity|].
  destruct e; simpl; now rewrite IH.
Qed.

Lemma printed_lines_Print (lines : list string) :
  printed_lines (map Print lines) = lines.
Proof.
  induction lines as [|x l IH]; simpl; [reflexivity | now rewrite IH].
Qed.

Lemma printed_add_prints (s : State) (lines : list string) :
  printed (add_events s (map Print lines)) = printed s ++ lines.
Proof.
  unfold printed. rewrite trace_add_events, printed_lines_app.
  now rewrite printed_lines_Print.
Qed.

Lemma length_enumerate_from {A : Type} (l : list A) (i : Z) :
  List.length (enumerate_from i l) = List.length l.
Proof.
  revert i. induction l as [|x l IH]; intros i; simpl;
    [reflexivity | now rewrite IH].
Qed.

Lemma length_database_lines (n : Z) (x : Z * (string * list string)) :
  List.length (database_lines n x) = S (List.length (snd (snd x))).
Proof.
  unfold database_lines. simpl.
  rewrite length_map. unfold enumerate. now rewrite length_enumerate_from.
Qed.

Lemma length_database_lines_all (n : Z) (d : Dict) (i : Z) :
  List.length (flat_map (database_lines n) (enumerate_from i d))
  = (List.length d
     + list_sum (map (fun kv => List.length (snd kv)) d))%nat.
Proof.
  revert i. induction d as [|[db tables] d IH]; intros i; simpl.
  - reflexivity.
  - rewrite length_app, IH. rewrite length_map.
    unfold enumerate. rewrite length_enumerate_from. lia.
Qed.

Lemma length_tree_lines (cluster_url : string) (d : Dict) :
  List.length (tree_lines cluster_url d)
  = (1 + List.length d
     + list_sum (map (fun kv => List.length (snd kv)) d))%nat.
Proof.
  unfold tree_lines, enumerate. simpl.
  now rewrite length_database_lines_all.
Qed.

(** ** The renderer *)

(** C1.  On the map [{"A": ["t1"], "B": []}] [print_tree] prints exactly
    four lines and does nothing else: the root line (cluster marker, cluster
    URL), the line of A (tee, database marker, A), the line of t1 (pipe
    prefix, elbow, table marker, t1) and the line of B (elbow, database
    marker, B); B has no child line. *)
Theorem print_tree_two_databases (cluster_url : string) (r : ref) (s : State) :
  interrupt s = None ->
  nth_error (heap s) r = Some [("A", ["t1"]); ("B", [])] ->
  exists s',
    print_tree cluster_url r s = (Ok tt, s') /\
    trace s' =
      trace s ++
      [ Print (TreeStyle.CLUSTER +:+ cluster_url);
        Print (TreeStyle.TEE +:+ TreeStyle.DATABASE +:+ "A");
        Print (TreeStyle.PIPE +:+ TreeStyle.ELBOW +:+ TreeStyle.TABLE +:+ "t1");
        Print (TreeStyle.ELBOW +:+ TreeStyle.DATABASE +:+ "B") ] /\
    printed s' =
      printed s ++
      [ TreeStyle.CLUSTER +:+ cluster_url;
        TreeStyle.TEE +:+ TreeStyle.DATABASE +:+ "A";
        TreeStyle.PIPE +:+ TreeStyle.ELBOW +:+ TreeStyle.TABLE +:+ "t1";
        TreeStyle.ELBOW +:+ TreeStyle.DATABASE +:+ "B" ].
Proof.
  intros Hq Hr. eexists.
  split; [exact (print_tree_quiet cluster_url r _ s Hq Hr)|].
  split.
  - reflexivity.
  - now rewrite printed_add_prints.
Qed.

Lemma print_tree_two_databases_witness :
  exists s',
    print_tree "https://c.kusto.windows.net" 0%nat
      (mkState [] None [[("A", ["t1"]); ("B", [])]]) = (Ok tt, s') /\
    printed s' =
      [ TreeStyle.CLUSTER +:+ "https://c.kusto.windows.net";
        TreeStyle.TEE +:+ TreeStyle.DATABASE +:+ "A";
        TreeStyle.PIPE +:+ TreeStyle.ELBOW +:+ TreeStyle.TABLE +:+ "t1";
        TreeStyle.ELBOW +:+ TreeStyle.DATABASE +:+ "B" ].
Proof.
  destruct (print_tree_two_databases "https://c.kusto.windows.net" 0%nat
              (mkState [] None [[("A", ["t1"]); ("B", [])]])
              eq_refl eq_refl) as [s' [Hrun [_ Hp]]].
  exists s'. split; [exact Hrun | exact Hp].
Defined.

(** C10.  On a map with [n] keys whose table lists have lengths
    [t1 .. tn], [print_tree] returns normally, everything it does is
    printing lines, their number is [1 + n + (t1 + ... + tn)], and the heap,
    so the map it was given, is what it was before the call. *)
Theorem print_tree_line_count (cluster_url : string) (r : ref) (d : Dict)
    (s : State) :
  interrupt s = None ->
  nth_error (heap s) r = Some d ->
  exists s' lines,
    print_tree cluster_url r s = (Ok tt, s') /\
    trace s' = trace s ++ map Print lines /\
    printed s' = printed s ++ lines /\
    List.length lines
    = (1 + List.length d
       + list_sum (map (fun kv => List.length (snd kv)) d))%nat /\
    heap s' = heap s /\
    nth_error (heap s') r = Some d.
Proof.
  intros Hq Hr.
  exists (add_events s (map Print (tree_lines cluster_url d))),
         (tree_lines cluster_url d).
  repeat split.
  - now apply print_tree_quiet.
  - apply printed_add_prints.
  - apply length_tree_lines.
  - exact Hr.
Qed.

Lemma print_tree_line_count_witness :
  exists s' lines,
    print_tree "u" 1%nat
      (mkState [LogInfo "x"] None
         [[]; [("A", ["t1"; "t2"]); ("B", []); ("C", ["t3"])]])
    = (Ok tt, s') /\
    printed s' = lines /\ List.length lines = 7%nat /\
    heap s' = [[]; [("A", ["t1"; "t2"]); ("B", []); ("C", ["t3"])]].
Proof.
  destruct (print_tree_line_count "u" 1%nat
              [("A", ["t1"; "t2"]); ("B", []); ("C", ["t3"])]
              (mkState [LogInfo "x"] None
                 [[]; [("A", ["t1"; "t2"]); ("B", []); ("C", ["t3"])]])
              eq_refl eq_refl)
    as [s' [lines [Hrun [_ [Hp [Hl [Hh _]]]]]]].
  exists s', lines. repeat split; assumption.
Defined.

(** C8.  [print_tree] is deterministic and idempotent: two calls with the
    same cluster URL on the same map print the same lines, whether the
    second call follows the first on the state the first one left or is made
    from any other state that holds the same map. *)
Theorem print_tree_idempotent (cluster_url : string) (d : Dict)
    (r r' : ref) (s s' : State) :
  interrupt s = None ->
  nth_error (heap s) r = Some d ->
  interrupt s' = None ->
  nth_error (heap s') r' = Some d ->
  exists out s1 s2,
    print_tree cluster_url r s = (Ok tt, s1) /\
    trace s1 = trace s ++ out /\
    print_tree cluster_url r s1 = (Ok tt, s2) /\
    trace s2 = trace s1 ++ out /\
    print_tree cluster_url r' s' = (Ok tt, add_events s' out).
Proof.
  intros Hq Hr Hq' Hr'.
  exists (map Print (tree_lines cluster_url d)),
         (add_events s (map Print (tree_lines cluster_url d))),
         (add_events (add_events s (map Print (tree_lines cluster_url d)))
            (map Print (tree_lines cluster_url d))).
  repeat split.
  - now apply print_tree_quiet.
  - now apply print_tree_quiet.
  - now apply print_tree_quiet.
Qed.

Lemma print_tree_idempotent_witness :
  exists out s1 s2,
    print_tree "u" 0%nat (mkState [] None [[("B", ["z"; "a"]); ("A", [])]])
    = (Ok tt, s1) /\
    trace s1 = out /\
    print_tree "u" 0%nat s1 = (Ok tt, s2) /\
    trace s2 = out ++ out.
Proof.
  destruct (print_tree_idempotent "u" [("B", ["z"; "a"]); ("A", [])]
              0%nat 0%nat
              (mkState [] None [[("B", ["z"; "a"]); ("A", [])]])
              (mkState [] None [[("B", ["z"; "a"]); ("A", [])]])
              eq_refl eq_refl eq_refl eq_refl)
    as [out [s1 [s2 [H1 [H2 [H3 [H4 _]]]]]]].
  exists out, s1, s2. simpl in H2. rewrite H2 in H4.
  repeat split; assumption.
Defined.

(** ** The metadata fetcher *)

Lemma get_databases_quiet (w : World) (client : KustoClient) (s : State) :
  interrupt s = None ->
  get_databases w client s =
    let s1 := add_events s fetching_databases in
    match listing "DatabaseName"
            (server w (trace s1) client "" ".show databases") with
    | Ok databases =>
        (Ok databases,
         add_events s1 [LogInfo ("Found " +:+ str_of_len (len databases)
                                 +:+ " databases")])
    | Raise (Exception_ e) => (Ok [], add_events s1 (databases_failed e))
    | Raise e => (Raise e, s1)
    end.
Proof.
  intros Hq. unfold get_databases, try_except_Exception, bind, logger_info,
    logger_exception, print, traceback_print_exc, execute_mgmt, lift, ret.
  rewrite (emit_quiet _ s Hq).
  rewrite extern_quiet by exact Hq.
  rewrite add_events_app, !trace_add_events, <- app_assoc. cbn [app].
  cbv zeta. unfold fetching_databases, listing.
  rewrite ?trace_add_events.
  destruct (server w _ client "" ".show databases") as [result|e].
  - destruct (getitem_0 (primary_results result)) as [rows|e].
    + destruct (column "DatabaseName" rows) as [databases|e].
      * now rewrite emit_quiet by exact Hq.
      * destruct e; try reflexivity.
        rewrite !emit_quiet by exact Hq. now rewrite !add_events_app.
    + destruct e; try reflexivity.
      rewrite !emit_quiet by exact Hq. now rewrite !add_events_app.
  - destruct e; try reflexivity.
    rewrite !emit_quiet by exact Hq. now rewrite !add_events_app.
Qed.

Lemma get_tables_quiet (w : World) (client : KustoClient) (database : string)
    (s : State) :
  interrupt s = None ->
  get_tables w client database s =
    let s1 := add_events s (fetching_tables database) in
    match listing "TableName"
            (server w (trace s1) client database ".show tables") with
    | Ok tables =>
        (Ok tables,
         add_events s1 [LogInfo ("Found " +:+ str_of_len (len tables)
                                 +:+ " tables in database " +:+ database)])
    | Raise (Exception_ e) =>
        (Ok [], add_events s1 (tables_failed database e))
    | Raise e => (Raise e, s1)
    end.
Proof.
  intros Hq. unfold get_tables, try_except_Exception, bind, logger_info,
    logger_exception, print, traceback_print_exc, execute_mgmt, lift, ret.
  rewrite (emit_quiet _ s Hq).
  rewrite extern_quiet by exact Hq.
  rewrite add_events_app, !trace_add_events, <- app_assoc. cbn [app].
  cbv zeta. unfold fetching_tables, listing.
  rewrite ?trace_add_events.
  destruct (server w _ client database ".show tables") as [result|e].
  - destruct (getitem_0 (primary_results result)) as [rows|e].
    + destruct (column "TableName" rows) as [tables|e].
      * now rewrite emit_quiet by exact Hq.
      * destruct e; try reflexivity.
        rewrite !emit_quiet by exact Hq. now rewrite !add_events_app.
    + destruct e; try reflexivity.
      rewrite !emit_quiet by exact Hq. now rewrite !add_events_app.
  - destruct e; try reflexivity.
    rewrite !emit_quiet by exact Hq. now rewrite !add_events_app.
Qed.

(** C3.  When its management command raises an [Exception], [get_databases]
    logs the error, prints it, prints the traceback and returns the empty
    list; the exception does not leave the function.  So does [get_tables]
    when its own command raises, whatever the listing of the databases did.
    The value the caller gets is in each case the one it gets from a
    listing whose first result set has no rows. *)
Theorem listing_failure_returns_empty (w : World) (client : KustoClient)
    (database : string) (s : State) :
  interrupt s = None ->
  (forall e : string,
     server w (trace s ++ fetching_databases) client "" ".show databases"
     = Raise (Exception_ e) ->
     get_databases w client s
     = (Ok [], add_events s (fetching_databases ++ databases_failed e)) /\
     forall (w0 : World) (s0 : State) (more : list (list Row)),
       interrupt s0 = None ->
       server w0 (trace s0 ++ fetching_databases) client "" ".show databases"
       = Ok (mkResponse ([] :: more)) ->
       fst (get_databases w0 client s0) = fst (get_databases w client s)) /\
  (forall e : string,
     server w (trace s ++ fetching_tables database) client database
       ".show tables"
     = Raise (Exception_ e) ->
     get_tables w client database s
     = (Ok [], add_events s (fetching_tables database
                             ++ tables_failed database e)) /\
     forall (w0 : World) (s0 : State) (more : list (list Row)),
       interrupt s0 = None ->
       server w0 (trace s0 ++ fetching_tables database) client database
         ".show tables"
       = Ok (mkResponse ([] :: more)) ->
       fst (get_tables w0 client database s0)
       = fst (get_tables w client database s)).
Proof.
  intros Hq. split.
  - intros e Hd.
    assert (Hgd : get_databases w client s
                  = (Ok [], add_events s (fetching_databases
                                          ++ databases_failed e))).
    { rewrite (get_databases_quiet w client s Hq). cbv zeta.
      rewrite trace_add_events, Hd. simpl. now rewrite add_events_app. }
    split; [exact Hgd|].
    intros w0 s0 more Hq0 H0. rewrite Hgd.
    rewrite (get_databases_quiet w0 client s0 Hq0). cbv zeta.
    rewrite trace_add_events, H0. reflexivity.
  - intros e Ht.
    assert (Hgt : get_tables w client database s
                  = (Ok [], add_events s (fetching_tables database
                                          ++ tables_failed database e))).
    { rewrite (get_tables_quiet w client database s Hq). cbv zeta.
      rewrite trace_add_events, Ht. simpl. now rewrite add_events_app. }
    split; [exact Hgt|].
    intros w0 s0 more Hq0 H0. rewrite Hgt.
    rewrite (get_tables_quiet w0 client database s0 Hq0). cbv zeta.
    rewrite trace_add_events, H0. reflexivity.
Qed.

(** On the cluster whose commands all fail the databases are not listed; on
    the sample cluster they are, and the listing of the tables of B, made
    on the state the first listing left, fails alone. *)
Lemma listing_failure_returns_empty_witness :
  get_databases failing_world ("u", 7%nat) initial
  = (Ok [], add_events initial
              (fetching_databases ++ databases_failed "timed out")) /\
  fst (get_databases sample_world ("u", 7%nat) initial)
  = Ok ["C"; "B"; "A"] /\
  get_tables sample_world ("u", 7%nat) "B"
    (snd (get_databases sample_world ("u", 7%nat) initial))
  = (Ok [],
     add_events (snd (get_databases sample_world ("u", 7%nat) initial))
       (fetching_tables "B" ++ tables_failed "B" "access denied")).
Proof.
  destruct (listing_failure_returns_empty failing_world ("u", 7%nat) "db1"
              initial eq_refl) as [Hd _].
  destruct (Hd "timed out" eq_refl) as [Hgd _].
  destruct (listing_failure_returns_empty sample_world ("u", 7%nat) "B"
              (snd (get_databases sample_world ("u", 7%nat) initial))
              ltac:(vm_compute; reflexivity)) as [_ Ht].
  destruct (Ht "access denied" ltac:(vm_compute; reflexivity)) as [Hgt _].
  split; [exact Hgd|]. split; [vm_compute; reflexivity | exact Hgt].
Defined.

(** ** The driving loop *)

Lemma set_heap_add_events (s : State) (h : list Dict) (es : list Event) :
  add_events (set_heap s h) es = set_heap (add_events s es) h.
Proof. reflexivity. Qed.

Lemma set_heap_set_heap (s : State) (h h' : list Dict) :
  set_heap (set_heap s h) h' = set_heap s h'.
Proof. reflexivity. Qed.

Lemma set_heap_same (s : State) : set_heap s (heap s) = s.
Proof. now destruct s. Qed.

(** [get_tables] neither reads nor writes the heap. *)
Lemma get_tables_frame (w : World) (client : KustoClient) (database : string)
    (s : State) (h : list Dict) :
  interrupt s = None ->
  get_tables w client database (set_heap s h)
  = (fst (get_tables w client database s),
     set_heap (snd (get_tables w client database s)) h).
Proof.
  intros Hq.
  rewrite (get_tables_quiet w client database (set_heap s h)) by exact Hq.
  rewrite (get_tables_quiet w client database s Hq). cbv zeta.
  rewrite set_heap_add_events. rewrite !trace_add_events.
  change (trace (set_heap s h)) with (trace s).
  destruct (listing "TableName" _) as [tables|e]; [reflexivity|].
  destruct e; reflexivity.
Qed.

Lemma get_tables_keeps_quiet (w : World) (client : KustoClient)
    (database : string) (s : State) :
  interrupt s = None ->
  interrupt (snd (get_tables w client database s)) = None /\
  heap (snd (get_tables w client database s)) = heap s.
Proof.
  intros Hq. rewrite (get_tables_quiet w client database s Hq). cbv zeta.
  destruct (listing "TableName" _) as [tables|e]; [now split|].
  destruct e; now split.
Qed.

Lemma table_listings_frame (w : World) (client : KustoClient)
    (databases : list string) (s : State) (h : list Dict) :
  interrupt s = None ->
  table_listings w client databases (set_heap s h)
  = (fst (table_listings w client databases s),
     set_heap (snd (table_listings w client databases s)) h).
Proof.
  revert s. induction databases as [|db rest IH]; intros s Hq; simpl.
  - reflexivity.
  - unfold bind. rewrite (get_tables_frame w client db s h Hq).
    destruct (get_tables_keeps_quiet w client db s Hq) as [Hq1 _].
    destruct (get_tables w client db s) as [[tables|e] s1]; simpl;
      [|reflexivity].
    simpl in Hq1. rewrite (IH s1 Hq1).
    destruct (table_listings w client rest s1) as [[more|e] s2]; reflexivity.
Qed.

Lemma nth_error_heap_update (h : list Dict) (r : ref) (d d' : Dict) :
  nth_error h r = Some d -> nth_error (heap_update h r d') r = Some d'.
Proof.
  revert r. induction h as [|x h IH]; intros [|r] H; simpl in *;
    try discriminate; [reflexivity | now apply IH].
Qed.

Lemma heap_update_twice (h : list Dict) (r : ref) (d d' : Dict) :
  heap_update (heap_update h r d) r d' = heap_update h r d'.
Proof.
  revert r. induction h as [|x h IH]; intros [|r]; simpl;
    try reflexivity. now rewrite IH.
Qed.

Lemma heap_update_last (h : list Dict) (d d' : Dict) :
  heap_update (h ++ [d]) (List.length h) d' = h ++ [d'].
Proof.
  induction h as [|x h IH]; simpl; [reflexivity | now rewrite IH].
Qed.

Lemma heap_update_same (h : list Dict) (r : ref) (d : Dict) :
  nth_error h r = Some d -> heap_update h r d = h.
Proof.
  revert r. induction h as [|x h IH]; intros [|r] H; simpl in *;
    try discriminate.
  - now inversion H.
  - now rewrite IH.
Qed.

Lemma dict_setitem_at (r : ref) (k : string) (v : list string) (d : Dict)
    (s : State) :
  nth_error (heap s) r = Some d ->
  dict_setitem r k v s
  = (Ok tt, set_heap s (heap_update (heap s) r (dict_set d k v))).
Proof.
  intros Hr. unfold dict_setitem, bind, deref. now rewrite Hr.
Qed.

(** The loop is the calls of [table_listings] with the assignments of
    [assign_all] done on the dict on the way. *)
Lemma driving_loop_assigns (w : World) (client : KustoClient) (r : ref)
    (databases : list string) :
  forall (s s' : State) (h : list Dict) (d : Dict)
         (results : list (list string)),
    interrupt s = None ->
    nth_error h r = Some d ->
    table_listings w client databases s = (Ok results, s') ->
    for_each databases
      (fun db => tables <- get_tables w client db ;;
                 dict_setitem r db tables) (set_heap s h)
    = (Ok tt,
       set_heap s' (heap_update h r (assign_all d databases results))).
Proof.
  induction databases as [|db rest IH];
    intros s s' h d results Hq Hr Hl; simpl in *.
  - inversion Hl; subst. unfold ret, assign_all. simpl.
    now rewrite (heap_update_same h r d Hr).
  - unfold bind in *. rewrite (get_tables_frame w client db s h Hq).
    destruct (get_tables_keeps_quiet w client db s Hq) as [Hq1 _].
    destruct (get_tables w client db s) as [[tables|e] s1];
      simpl in *; [|discriminate].
    destruct (table_listings w client rest s1) as [[more|e] s2] eqn:Hrest;
      [|discriminate].
    inversion Hl; subst. clear Hl.
    rewrite (dict_setitem_at r db tables d (set_heap s1 h) Hr).
    rewrite set_heap_set_heap. simpl.
    rewrite (IH s1 s' _ (dict_set d db tables) more Hq1
               (nth_error_heap_update h r d _ Hr) Hrest).
    now rewrite heap_update_twice.
Qed.

Lemma fetch_all_tables_assigns (w : World) (client : KustoClient)
    (databases : list string) (s s' : State)
    (results : list (list string)) :
  interrupt s = None ->
  table_listings w client databases s = (Ok results, s') ->
  fetch_all_tables w client databases s
  = (Ok (List.length (heap s)),
     set_heap s' (heap s ++ [assign_all [] databases results])).
Proof.
  intros Hq Hl. unfold fetch_all_tables.
  rewrite (bind_Ok new_dict _ s (List.length (heap s))
             (set_heap s (heap s ++ [[]])) eq_refl).
  erewrite bind_Ok.
  2:{ apply (driving_loop_assigns w client (List.length (heap s)) databases
               s s' (heap s ++ [[]]) [] results Hq); [|exact Hl].
      rewrite nth_error_app2 by lia. now rewrite Nat.sub_diag. }
  unfold ret. now rewrite heap_update_last.
Qed.

(** *** Failures inside a listing are [Exception]s *)

Lemma row_getitem_raises (row : Row) (col : string) (e : exn) :
  row_getitem row col = Raise e -> is_Exception e = true.
Proof.
  induction row as [|[c v] row IH]; simpl; intros H.
  - now inversion H.
  - destruct (String.eqb c col); [discriminate | now apply IH].
Qed.

Lemma column_raises (col : string) (rows : list Row) (e : exn) :
  column col rows = Raise e -> is_Exception e = true.
Proof.
  induction rows as [|row rows IH]; simpl; intros H; [discriminate|].
  destruct (row_getitem row col) as [v|e'] eqn:Hrow.
  - destruct (column col rows) as [vs|e'']; [discriminate|].
    inversion H; subst. now apply IH.
  - inversion H; subst. now apply row_getitem_raises in Hrow.
Qed.

Lemma listing_raises (w : World) (col : string) (history : list Event)
    (client : KustoClient) (database command : string) (e : exn) :
  benign w ->
  listing col (server w history client database command) = Raise e ->
  is_Exception e = true.
Proof.
  intros Hb. unfold listing.
  destruct (server w history client database command) as [result|e'] eqn:Hs.
  - destruct (primary_results result) as [|rows more]; simpl.
    + intros H. now inversion H.
    + apply column_raises.
  - intros H. inversion H; subst. exact (Hb _ _ _ _ _ Hs).
Qed.

Lemma filter_is_mgmt_app (es1 es2 : list Event) :
  filter is_mgmt (es1 ++ es2) = filter is_mgmt es1 ++ filter is_mgmt es2.
Proof. apply filter_app. Qed.

(** Without an interrupt and with a benign server [get_tables] returns:
    one query to the server, and the empty list when the query fails. *)
Lemma get_tables_total (w : World) (client : KustoClient) (database : string)
    (s : State) :
  interrupt s = None ->
  benign w ->
  exists tables es,
    get_tables w client database s = (Ok tables, add_events s es) /\
    filter is_mgmt es = [show_tables database] /\
    (tables_query_fails w client database -> tables = []).
Proof.
  intros Hq Hb. rewrite (get_tables_quiet w client database s Hq). cbv zeta.
  destruct (listing "TableName" _) as [tables|e] eqn:Hl.
  - exists tables. eexists. rewrite add_events_app.
    split; [reflexivity|]. split; [reflexivity|].
    intros Hf. destruct (Hf (trace (add_events s (fetching_tables database))))
      as [e He].
    unfold listing in Hl. rewrite He in Hl. discriminate.
  - pose proof (listing_raises _ _ _ _ _ _ _ Hb Hl) as He.
    destruct e; try discriminate.
    exists []. eexists. rewrite add_events_app.
    split; [reflexivity|]. split; reflexivity.
Qed.

Lemma table_listings_total (w : World) (client : KustoClient)
    (databases : list string) :
  benign w ->
  forall s, interrupt s = None ->
  exists results es,
    table_listings w client databases s = (Ok results, add_events s es) /\
    filter is_mgmt es = map show_tables databases /\
    Forall2 (fun db tables => tables_query_fails w client db -> tables = [])
      databases results.
Proof.
  intros Hb. induction databases as [|db rest IH]; intros s Hq; simpl.
  - exists [], []. rewrite add_events_nil. repeat split. constructor.
  - destruct (get_tables_total w client db s Hq Hb)
      as [tables [es [Hg [Hm Hf]]]].
    destruct (IH (add_events s es) Hq) as [more [es' [Hl [Hm' Hf']]]].
    exists (tables :: more), (es ++ es').
    rewrite (bind_Ok _ _ _ _ _ Hg). rewrite (bind_Ok _ _ _ _ _ Hl).
    unfold ret. rewrite add_events_app.
    split; [reflexivity|]. split.
    + rewrite filter_is_mgmt_app, Hm, Hm'. reflexivity.
    + now constructor.
Qed.

(** *** The dict the assignments leave *)

Lemma existsb_eqb_In (x : string) (l : list string) :
  existsb (String.eqb x) l = true <-> In x l.
Proof.
  rewrite existsb_exists. split.
  - intros [y [Hy Heq]]. apply String.eqb_eq in Heq. now subst.
  - intros H. exists x. split; [exact H | apply String.eqb_refl].
Qed.

Lemma existsb_eqb_not_In (x : string) (l : list string) :
  existsb (String.eqb x) l = false <-> ~ In x l.
Proof.
  rewrite <- existsb_eqb_In. now destruct (existsb (String.eqb x) l).
Qed.

Lemma keys_dict_set (d : Dict) (k : string) (v : list string) :
  keys (dict_set d k v)
  = if existsb (String.eqb k) (keys d) then keys d else keys d ++ [k].
Proof.
  induction d as [|[k' v'] d IH]; simpl; [reflexivity|].
  rewrite (String.eqb_sym k k').
  destruct (String.eqb k' k); simpl; [reflexivity|].
  rewrite IH.
  now destruct (existsb (String.eqb k) (keys d)).
Qed.

Lemma keys_assign_all (databases : list string) :
  forall (d : Dict) (results : list (list string)),
    List.length results = List.length databases ->
    keys (assign_all d databases results)
    = keys d ++ first_occurrences (keys d) databases.
Proof.
  induction databases as [|db rest IH]; intros d results Hlen.
  - destruct results; [|discriminate]. simpl. now rewrite app_nil_r.
  - destruct results as [|tables more]; [discriminate|].
    unfold assign_all in *. simpl. rewrite IH by (simpl in Hlen; lia).
    rewrite keys_dict_set.
    destruct (existsb (String.eqb db) (keys d)); [reflexivity|].
    now rewrite <- app_assoc.
Qed.

Lemma dict_get_dict_set_same (d : Dict) (k : string) (v : list string) :
  dict_get (dict_set d k v) k = Some v.
Proof.
  induction d as [|[k' v'] d IH]; simpl.
  - now rewrite String.eqb_refl.
  - destruct (String.eqb k' k) eqn:E; simpl; rewrite E; [reflexivity|exact IH].
Qed.

Lemma dict_get_dict_set_other (d : Dict) (k x : string) (v : list string) :
  k <> x -> dict_get (dict_set d k v) x = dict_get d x.
Proof.
  intros Hne. induction d as [|[k' v'] d IH]; simpl.
  - apply String.eqb_neq in Hne. now rewrite Hne.
  - destruct (String.eqb k' k) eqn:E; simpl.
    + apply String.eqb_eq in E. subst k'.
      apply String.eqb_neq in Hne. now rewrite Hne.
    + now rewrite IH.
Qed.

Lemma dict_get_assign_all_absent (databases : list string) (x : string) :
  forall (d : Dict) (results : list (list string)),
    ~ In x databases ->
    dict_get (assign_all d databases results) x = dict_get d x.
Proof.
  induction databases as [|db rest IH]; intros d results Hni.
  - reflexivity.
  - destruct results as [|tables more]; [reflexivity|].
    unfold assign_all in *. simpl.
    rewrite IH by (intros H; apply Hni; now right).
    apply dict_get_dict_set_other. intros Heq. apply Hni. now left.
Qed.

Lemma assign_all_app (pre post : list string) :
  forall (d : Dict) (rpre rpost : list (list string)),
    List.length rpre = List.length pre ->
    assign_all d (pre ++ post) (rpre ++ rpost)
    = assign_all (assign_all d pre rpre) post rpost.
Proof.
  induction pre as [|db pre IH]; intros d rpre rpost Hlen.
  - destruct rpre; [reflexivity | discriminate].
  - destruct rpre as [|tables rpre]; [discriminate|].
    unfold assign_all in *. simpl. apply IH. simpl in Hlen. lia.
Qed.

(** The value under a name is the list assigned at its last occurrence. *)
Lemma dict_get_assign_all_last (d : Dict) (pre post : list string)
    (x : string) (results : list (list string)) (v : list string) :
  ~ In x post ->
  nth_error results (List.length pre) = Some v ->
  dict_get (assign_all d (pre ++ x :: post) results) x = Some v.
Proof.
  intros Hni Hnth.
  destruct (nth_error_split results (List.length pre) Hnth)
    as [rpre [rpost [Hres Hlen]]].
  subst results. rewrite assign_all_app by exact Hlen.
  change (assign_all (assign_all d pre rpre) (x :: post) (v :: rpost))
    with (assign_all (dict_set (assign_all d pre rpre) x v) post rpost).
  rewrite dict_get_assign_all_absent by exact Hni.
  apply dict_get_dict_set_same.
Qed.

Lemma In_dict_set (d : Dict) (k : string) (v : list string)
    (p : string * list string) :
  In p (dict_set d k v) -> In p d \/ p = (k, v).
Proof.
  induction d as [|[k' v'] d IH]; simpl.
  - intros [H|[]]. now right.
  - destruct (String.eqb k' k) eqn:E; simpl.
    + apply String.eqb_eq in E. subst k'.
      intros [H|H]; [now right | left; now right].
    + intros [H|H]; [left; now left|].
      destruct (IH H) as [H'|H']; [left; now right | now right].
Qed.

(** Every entry is a name of [databases] with the list fetched at one of
    its occurrences. *)
Lemma In_assign_all (databases : list string) :
  forall (d : Dict) (results : list (list string)) (p : string * list string),
    In p (assign_all d databases results) ->
    In p d \/
    exists i, nth_error databases i = Some (fst p) /\
              nth_error results i = Some (snd p).
Proof.
  induction databases as [|db rest IH]; intros d results p Hin.
  - now left.
  - destruct results as [|tables more]; [now left|].
    unfold assign_all in *. simpl in Hin.
    destruct (IH _ _ _ Hin) as [H|[i [H1 H2]]].
    + destruct (In_dict_set _ _ _ _ H) as [H'|H']; [now left|].
      right. exists 0%nat. subst p. now split.
    + right. exists (S i). now split.
Qed.

Lemma dict_set_fresh (d : Dict) (k : string) (v : list string) :
  ~ In k (keys d) -> dict_set d k v = d ++ [(k, v)].
Proof.
  induction d as [|[k' v'] d IH]; simpl; intros Hni; [reflexivity|].
  destruct (String.eqb k' k) eqn:E.
  - apply String.eqb_eq in E. exfalso. apply Hni. now left.
  - rewrite IH; [reflexivity|]. intros H. apply Hni. now right.
Qed.

(** With distinct names the dict is the names zipped with the lists. *)
Lemma assign_all_NoDup (databases : list string) :
  forall (d : Dict) (results : list (list string)),
    NoDup databases ->
    (forall x, In x databases -> ~ In x (keys d)) ->
    assign_all d databases results = d ++ combine databases results.
Proof.
  induction databases as [|db rest IH]; intros d results Hnd Hdis.
  - unfold assign_all. simpl. now rewrite app_nil_r.
  - destruct results as [|tables more].
    + unfold assign_all. simpl. now rewrite app_nil_r.
    + inversion Hnd as [|? ? Hni Hnd']; subst.
      change (assign_all d (db :: rest) (tables :: more))
        with (assign_all (dict_set d db tables) rest more).
      rewrite dict_set_fresh by (apply Hdis; now left).
      rewrite IH; [simpl; now rewrite <- app_assoc | exact Hnd' |].
      intros x Hx. unfold keys. rewrite map_app, in_app_iff. simpl.
      intros [H|[H|[]]].
      * apply (Hdis x); [now right | exact H].
      * subst x. contradiction.
Qed.

Lemma first_occurrences_In (l : list string) :
  forall (seen : list string) (x : string),
    In x (first_occurrences seen l) <-> In x l /\ ~ In x seen.
Proof.
  induction l as [|y l IH]; intros seen x; simpl.
  - tauto.
  - destruct (existsb (String.eqb y) seen) eqn:E.
    + apply existsb_eqb_In in E. rewrite IH. split.
      * intros [H1 H2]. split; [now right | exact H2].
      * intros [[H1|H1] H2]; [subst; contradiction | now split].
    + apply existsb_eqb_not_In in E. simpl. rewrite IH, in_app_iff. simpl.
      split.
      * intros [H|[H1 H2]]; [subst; split; [now left | exact E]|].
        split; [now right | tauto].
      * intros [[H1|H1] H2]; [now left|].
        destruct (string_dec y x) as [Heq|Hne]; [now left|].
        right. split; [exact H1 | tauto].
Qed.

Lemma NoDup_first_occurrences (l : list string) :
  forall seen, NoDup (first_occurrences seen l).
Proof.
  induction l as [|y l IH]; intros seen; simpl; [constructor|].
  destruct (existsb (String.eqb y) seen); [apply IH|].
  constructor; [|apply IH].
  rewrite first_occurrences_In, in_app_iff. simpl. tauto.
Qed.

Lemma first_occurrences_app (a b : list string) :
  forall seen,
    first_occurrences seen (a ++ b)
    = first_occurrences seen a
      ++ first_occurrences (seen ++ first_occurrences seen a) b.
Proof.
  induction a as [|y a IH]; intros seen; simpl.
  - now rewrite app_nil_r.
  - destruct (existsb (String.eqb y) seen); [apply IH|].
    simpl. rewrite IH. now rewrite <- app_assoc.
Qed.

Lemma first_occurrences_NoDup (l : list string) :
  forall seen,
    NoDup l -> (forall x, In x l -> ~ In x seen) ->
    first_occurrences seen l = l.
Proof.
  induction l as [|y l IH]; intros seen Hnd Hdis; simpl; [reflexivity|].
  inversion Hnd as [|? ? Hni Hnd']; subst.
  assert (E : existsb (String.eqb y) seen = false).
  { apply existsb_eqb_not_In. apply Hdis. now left. }
  rewrite E. f_equal. apply IH; [exact Hnd'|].
  intros x Hx. rewrite in_app_iff. simpl. intros [H|[H|[]]].
  - apply (Hdis x); [now right | exact H].
  - subst. contradiction.
Qed.

Lemma In_split_last (x : string) (l : list string) :
  In x l -> exists pre post, l = pre ++ x :: post /\ ~ In x post.
Proof.
  induction l as [|y l IH]; intros Hin; [contradiction|].
  destruct (in_dec string_dec x l) as [Hl|Hl].
  - destruct (IH Hl) as [pre [post [Heq Hni]]].
    exists (y :: pre), post. subst l. now split.
  - destruct Hin as [Heq|Hin]; [|contradiction].
    subst y. exists [], l. now split.
Qed.

(** ** What the tree shows *)

Lemma table_lines_show (db_prefix : string) (n : Z) (tables : list string) :
  db_prefix = TreeStyle.PIPE \/ db_prefix = TreeStyle.SPACE ->
  forall j,
    Forall2 shows (map (table_line db_prefix n) (enumerate_from j tables))
      (map TableEntry tables).
Proof.
  intros Hp. induction tables as [|t tables IH]; intros j; simpl;
    constructor; [|apply IH].
  unfold table_line. simpl. exists db_prefix.
  destruct (j =? n - 1);
    [exists TreeStyle.ELBOW | exists TreeStyle.TEE]; tauto.
Qed.

Lemma database_lines_show (n : Z) (d : Dict) :
  forall i,
    Forall2 shows (flat_map (database_lines n) (enumerate_from i d))
      (entries d).
Proof.
  induction d as [|[db tables] d IH]; intros i; simpl; [constructor|].
  constructor.
  - simpl. destruct (i =? n - 1); tauto.
  - apply Forall2_app; [|apply IH].
    apply table_lines_show. simpl. destruct (i =? n - 1); tauto.
Qed.

Lemma tree_lines_show (cluster_url : string) (d : Dict) :
  exists lines,
    tree_lines cluster_url d = (TreeStyle.CLUSTER +:+ cluster_url) :: lines /\
    Forall2 shows lines (entries d).
Proof.
  eexists. split; [reflexivity|]. apply database_lines_show.
Qed.

Lemma db_entries_count (d : Dict) :
  List.length (filter is_db_entry (entries d)) = List.length d.
Proof.
  induction d as [|[db tables] d IH]; simpl; [reflexivity|].
  rewrite filter_app, length_app, IH.
  replace (filter is_db_entry (map TableEntry tables)) with (@nil Entry);
    [reflexivity|].
  induction tables as [|t tables IHt]; simpl; [reflexivity | exact IHt].
Qed.

Lemma In_db_entry (d : Dict) (db : string) :
  In db (keys d) -> In (DbEntry db) (entries d).
Proof.
  induction d as [|[k v] d IH]; simpl; [tauto|].
  intros [H|H]; [left; now subst|].
  right. apply in_or_app. right. now apply IH.
Qed.

Lemma mgmt_calls_add_events (s : State) (es : list Event) (h : list Dict) :
  mgmt_calls (set_heap (add_events s es) h)
  = mgmt_calls s ++ filter is_mgmt es.
Proof. unfold mgmt_calls. simpl. apply filter_app. Qed.

Lemma mgmt_calls_add_events_eq (s : State) (es : list Event) (h : list Dict)
    (calls : list Event) :
  filter is_mgmt es = calls ->
  mgmt_calls (set_heap (add_events s es) h) = mgmt_calls s ++ calls.
Proof. intros <-. apply mgmt_calls_add_events. Qed.

Lemma fetch_all_tables_total (w : World) (client : KustoClient)
    (databases : list string) (s : State) :
  interrupt s = None ->
  benign w ->
  exists results es,
    table_listings w client databases s = (Ok results, add_events s es) /\
    fetch_all_tables w client databases s
    = (Ok (List.length (heap s)),
       set_heap (add_events s es)
         (heap s ++ [assign_all [] databases results])) /\
    filter is_mgmt es = map show_tables databases /\
    Forall2 (fun db tables => tables_query_fails w client db -> tables = [])
      databases results.
Proof.
  intros Hq Hb.
  destruct (table_listings_total w client databases Hb s Hq)
    as [results [es [Hl [Hm Hf]]]].
  exists results, es. repeat split; try assumption.
  now apply fetch_all_tables_assigns.
Qed.

Lemma sample_world_benign : benign sample_world.
Proof.
  intros history client database command e. simpl. unfold sample_server.
  destruct (String.eqb command ".show databases"); [discriminate|].
  destruct (String.eqb database "B"); [|discriminate].
  intros H. now inversion H.
Qed.

(** C2.  No level is sorted.  [print_tree] prints, after the root line, one
    line per entry of the map in the order of the map: each key in key
    order, followed by the tables of its list in list order.  The driving
    loop builds the map from the names [get_databases] returned and the
    lists [get_tables] returned, call by call: the keys are the names in the
    order returned (a repeated name stays where it first occurred), every
    value is a list [get_tables] returned for its key, untouched, and with
    distinct names the map is the names zipped with the lists. *)
Theorem order_preserved (cluster_url : string) (d : Dict) (r : ref)
    (s : State) (w : World) (client : KustoClient)
    (databases : list string) (s0 : State) :
  interrupt s = None ->
  nth_error (heap s) r = Some d ->
  interrupt s0 = None ->
  benign w ->
  (exists lines,
     print_tree cluster_url r s
     = (Ok tt, add_events s
                 (map Print ((TreeStyle.CLUSTER +:+ cluster_url) :: lines))) /\
     Forall2 shows lines (entries d)) /\
  (exists results s1 built,
     table_listings w client databases s0 = (Ok results, s1) /\
     fetch_all_tables w client databases s0
     = (Ok (List.length (heap s0)), set_heap s1 (heap s0 ++ [built])) /\
     List.length results = List.length databases /\
     keys built = first_occurrences [] databases /\
     (NoDup databases ->
      keys built = databases /\ built = combine databases results) /\
     (forall db tables,
        In (db, tables) built ->
        exists i, nth_error databases i = Some db /\
                  nth_error results i = Some tables)).
Proof.
  intros Hq Hr Hq0 Hb. split.
  - destruct (tree_lines_show cluster_url d) as [lines [Heq Hshow]].
    exists lines. split; [|exact Hshow].
    rewrite <- Heq. now apply print_tree_quiet.
  - destruct (fetch_all_tables_total w client databases s0 Hq0 Hb)
      as [results [es [Hl [Hf [_ Hall]]]]].
    pose proof (Forall2_length Hall) as Hlen. symmetry in Hlen.
    exists results, (add_events s0 es), (assign_all [] databases results).
    repeat split; try assumption.
    + now rewrite keys_assign_all.
    + rewrite keys_assign_all by exact Hlen. simpl.
      apply first_occurrences_NoDup; [exact H | intros x _ []].
    + rewrite assign_all_NoDup; [reflexivity | exact H | intros x _ []].
    + intros db tables Hin.
      destruct (In_assign_all _ _ _ _ Hin) as [[]|Hi]. exact Hi.
Qed.

Lemma order_preserved_witness :
  (exists lines,
     printed (snd (print_tree "u" 0%nat
                     (mkState [] None [[("b", ["z"; "a"]); ("a", ["y"])]])))
     = (TreeStyle.CLUSTER +:+ "u") :: lines /\
     Forall2 shows lines
       [DbEntry "b"; TableEntry "z"; TableEntry "a";
        DbEntry "a"; TableEntry "y"]) /\
  (exists s1,
     fetch_all_tables sample_world ("u", 7%nat) ["C"; "B"; "A"] initial
     = (Ok 0%nat,
        set_heap s1 [[("C", ["C_z"; "C_a"]); ("B", []);
                      ("A", ["A_z"; "A_a"])]])).
Proof.
  destruct (order_preserved "u" [("b", ["z"; "a"]); ("a", ["y"])] 0%nat
              (mkState [] None [[("b", ["z"; "a"]); ("a", ["y"])]])
              sample_world ("u", 7%nat) ["C"; "B"; "A"] initial
              eq_refl eq_refl eq_refl sample_world_benign)
    as [[lines [Hrun Hshow]]
        [results [s1 [built [Hl [Hf [_ [_ [Hzip _]]]]]]]]].
  split.
  - exists lines. rewrite Hrun. split; [|exact Hshow].
    cbn [snd]. now rewrite printed_add_prints.
  - exists s1. rewrite Hf.
    assert (Hnd : NoDup ["C"; "B"; "A"]).
    { repeat constructor; simpl; intuition discriminate. }
    destruct (Hzip Hnd) as [_ Hbuilt]. rewrite Hbuilt.
    vm_compute in Hl. inversion Hl; subst. reflexivity.
Defined.

Lemma Forall2_at_split {A B : Type} (P : A -> B -> Prop) (pre post : list A)
    (x : A) (l' : list B) :
  Forall2 P (pre ++ x :: post) l' ->
  exists v, nth_error l' (List.length pre) = Some v /\ P x v.
Proof.
  intros H. apply Forall2_app_inv_l in H.
  destruct H as [l1' [l2' [H1 [H2 Heq]]]].
  inversion H2 as [|? v ? l2'' Hxv Hrest]; subst.
  exists v. split; [|exact Hxv].
  rewrite nth_error_app2 by (rewrite (Forall2_length H1); lia).
  now rewrite (Forall2_length H1), Nat.sub_diag.
Qed.

Lemma main_renders (w : World) (s0 sa sb s s1 : State)
    (cluster_url : string) (client : KustoClient)
    (databases : list string) (r : ref) (d : Dict) :
  parse_args w s0 = (Ok cluster_url, sa) ->
  connect_to_kusto w cluster_url sa = (Ok client, sb) ->
  get_databases w client sb = (Ok databases, s) ->
  databases <> [] ->
  fetch_all_tables w client databases s = (Ok r, s1) ->
  interrupt s1 = None ->
  nth_error (heap s1) r = Some d ->
  main w s0
  = (Ok tt,
     add_events s1
       (map Print (tree_lines cluster_url d)
        ++ [LogInfo "Tree display completed successfully"])).
Proof.
  intros Hp Hc Hg Hne Hf Hq Hr. unfold main, main_try.
  rewrite (bind_Ok _ _ _ _ _ Hp), (bind_Ok _ _ _ _ _ Hc),
    (bind_Ok _ _ _ _ _ Hg).
  destruct databases as [|db rest]; [contradiction|].
  rewrite (bind_Ok _ _ _ _ _ Hf).
  rewrite (bind_Ok _ _ _ _ _ (print_tree_quiet cluster_url r d s1 Hq Hr)).
  unfold logger_info. rewrite emit_quiet by exact Hq.
  now rewrite add_events_app.
Qed.

(** C4.  A [get_tables] that fails does not stop the loop.  Whatever
    databases fail to list their tables, the loop queries the server once
    for every name [get_databases] returned, in order; every name is a key
    of the map, a name whose query fails has the empty list, and [main]
    goes on to print the tree, with a line for every name, and returns. *)
Theorem table_failure_does_not_abort (w : World) (s0 sa sb s : State)
    (cluster_url : string) (client : KustoClient)
    (databases : list string) :
  parse_args w s0 = (Ok cluster_url, sa) ->
  connect_to_kusto w cluster_url sa = (Ok client, sb) ->
  get_databases w client sb = (Ok databases, s) ->
  databases <> [] ->
  interrupt s = None ->
  benign w ->
  exists d s1 lines,
    fetch_all_tables w client databases s
    = (Ok (List.length (heap s)), s1) /\
    nth_error (heap s1) (List.length (heap s)) = Some d /\
    mgmt_calls s1 = mgmt_calls s ++ map show_tables databases /\
    (forall db, In db databases -> In db (keys d)) /\
    (forall db, In db databases -> tables_query_fails w client db ->
                dict_get d db = Some []) /\
    main w s0
    = (Ok tt,
       add_events s1
         (map Print ((TreeStyle.CLUSTER +:+ cluster_url) :: lines)
          ++ [LogInfo "Tree display completed successfully"])) /\
    Forall2 shows lines (entries d) /\
    (forall db, In db databases -> In (DbEntry db) (entries d)).
Proof.
  intros Hp Hc Hg Hne Hq Hb.
  destruct (fetch_all_tables_total w client databases s Hq Hb)
    as [results [es [Hl [Hf [Hm Hall]]]]].
  pose proof (Forall2_length Hall) as Hlen. symmetry in Hlen.
  set (d := assign_all [] databases results) in *.
  set (s1 := set_heap (add_events s es) (heap s ++ [d])) in *.
  assert (Hr : nth_error (heap s1) (List.length (heap s)) = Some d).
  { simpl. rewrite nth_error_app2 by lia. now rewrite Nat.sub_diag. }
  assert (Hkeys : forall db, In db databases -> In db (keys d)).
  { intros db Hin. unfold d. rewrite keys_assign_all by exact Hlen.
    simpl. apply first_occurrences_In. now split. }
  destruct (tree_lines_show cluster_url d) as [lines [Heq Hshow]].
  exists d, s1, lines. repeat split; try assumption.
  - apply mgmt_calls_add_events_eq. exact Hm.
  - intros db Hin Hfail.
    destruct (In_split_last db databases Hin) as [pre [post [Hsplit Hni]]].
    assert (Hall' := Hall). rewrite Hsplit in Hall'.
    destruct (Forall2_at_split _ _ _ _ _ Hall') as [v [Hnth Hv]].
    unfold d. rewrite Hsplit.
    rewrite (dict_get_assign_all_last [] pre post db results v Hni Hnth).
    now rewrite (Hv Hfail).
  - rewrite <- Heq.
    now apply (main_renders w s0 sa sb s s1 cluster_url client databases
                 (List.length (heap s)) d).
  - intros db Hin. apply In_db_entry. now apply Hkeys.
Qed.

Lemma table_failure_does_not_abort_witness :
  exists d s1 lines,
    mgmt_calls s1
    = [CallMgmt "" ".show databases"; show_tables "C"; show_tables "B";
       show_tables "A"] /\
    d = [("C", ["C_z"; "C_a"]); ("B", []); ("A", ["A_z"; "A_a"])] /\
    main sample_world initial
    = (Ok tt,
       add_events s1
         (map Print
            ((TreeStyle.CLUSTER +:+ "https://c.kusto.windows.net") :: lines)
          ++ [LogInfo "Tree display completed successfully"])) /\
    Forall2 shows lines (entries d).
Proof.
  destruct (table_failure_does_not_abort sample_world initial
              _ _ _ _ _ ["C"; "B"; "A"] eq_refl eq_refl eq_refl
              (fun H => @nil_cons _ "C" ["B"; "A"] (eq_sym H))
              eq_refl sample_world_benign)
    as [d [s1 [lines [Hf [Hr [Hm [_ [_ [Hmain [Hshow _]]]]]]]]]].
  exists d, s1, lines. repeat split; try assumption.
  vm_compute in Hf. inversion Hf; subst s1. vm_compute in Hr.
  now inversion Hr.
Defined.

Lemma keys_shorter_on_repeat (l1 l2 l3 : list string) (x : string)
    (ks : list string) :
  NoDup ks ->
  incl ks (l1 ++ x :: l2 ++ x :: l3) ->
  (List.length ks < List.length (l1 ++ x :: l2 ++ x :: l3))%nat.
Proof.
  intros Hnd Hincl.
  destruct (Nat.lt_ge_cases (List.length ks)
              (List.length (l1 ++ x :: l2 ++ x :: l3))) as [Hlt|Hge];
    [exact Hlt|].
  exfalso.
  pose proof (NoDup_incl_NoDup Hnd Hge Hincl) as Hnd'.
  apply NoDup_remove_2 in Hnd'. apply Hnd'.
  apply in_or_app. right. apply in_or_app. right. now left.
Qed.

Lemma repeating_world_benign : benign repeating_world.
Proof.
  intros history client database command e. simpl. unfold repeating_server.
  destruct (String.eqb command ".show databases"); [discriminate|].
  destruct (String.eqb database "B"); [discriminate|].
  destruct (3 <? len (filter is_mgmt history)); discriminate.
Qed.

(** C9.  When [get_databases] returns a name [x] more than once, the map the
    loop builds has exactly one entry for [x]; the keys before it are the
    names that came before the first occurrence of [x]; its value is the
    list [get_tables] returned at the last occurrence of [x]; and the tree
    has fewer database lines than [get_databases] returned names. *)
Theorem repeated_database_name (w : World) (client : KustoClient)
    (cluster_url : string) (l1 l2 l3 : list string) (x : string)
    (s : State) :
  interrupt s = None ->
  benign w ->
  ~ In x l1 ->
  ~ In x l3 ->
  exists results s1 d lines,
    table_listings w client (l1 ++ x :: l2 ++ x :: l3) s = (Ok results, s1) /\
    fetch_all_tables w client (l1 ++ x :: l2 ++ x :: l3) s
    = (Ok (List.length (heap s)), set_heap s1 (heap s ++ [d])) /\
    count_occ string_dec (keys d) x = 1%nat /\
    (exists later, keys d = first_occurrences [] l1 ++ x :: later) /\
    (exists tables,
       nth_error results (List.length l1 + 1 + List.length l2) = Some tables /\
       dict_get d x = Some tables) /\
    print_tree cluster_url (List.length (heap s))
      (set_heap s1 (heap s ++ [d]))
    = (Ok tt,
       add_events (set_heap s1 (heap s ++ [d]))
         (map Print ((TreeStyle.CLUSTER +:+ cluster_url) :: lines))) /\
    Forall2 shows lines (entries d) /\
    (List.length (filter is_db_entry (entries d))
     < List.length (l1 ++ x :: l2 ++ x :: l3))%nat.
Proof.
  intros Hq Hb Hfirst Hlast.
  set (databases := l1 ++ x :: l2 ++ x :: l3) in *.
  destruct (fetch_all_tables_total w client databases s Hq Hb)
    as [results [es [Hl [Hf [_ Hall]]]]].
  pose proof (Forall2_length Hall) as Hlen. symmetry in Hlen.
  set (d := assign_all [] databases results) in *.
  assert (Hkeys : keys d = first_occurrences [] databases).
  { unfold d. now rewrite keys_assign_all. }
  assert (Hin : In x (keys d)).
  { rewrite Hkeys. apply first_occurrences_In. split; [|intros []].
    unfold databases. apply in_or_app. right. now left. }
  assert (Hnd : NoDup (keys d)).
  { rewrite Hkeys. apply NoDup_first_occurrences. }
  destruct (tree_lines_show cluster_url d) as [lines [Heq Hshow]].
  exists results, (add_events s es), d, lines.
  split; [exact Hl|]. split; [exact Hf|]. split.
  { apply NoDup_count_occ'; assumption. }
  split.
  { rewrite Hkeys. unfold databases. rewrite first_occurrences_app. simpl.
    assert (E : existsb (String.eqb x) (first_occurrences [] l1) = false).
    { apply existsb_eqb_not_In. rewrite first_occurrences_In. tauto. }
    rewrite E. eexists. reflexivity. }
  split.
  { assert (Hsplit : databases = (l1 ++ x :: l2) ++ x :: l3).
    { unfold databases. now rewrite <- app_assoc. }
    assert (Hall' := Hall). rewrite Hsplit in Hall'.
    destruct (Forall2_at_split _ _ _ _ _ Hall') as [v [Hnth _]].
    exists v. split.
    - rewrite length_app in Hnth. simpl in Hnth.
      now replace (List.length l1 + 1 + List.length l2)%nat
        with (List.length l1 + S (List.length l2))%nat by lia.
    - unfold d. rewrite Hsplit.
      now apply dict_get_assign_all_last. }
  split.
  { rewrite <- Heq. apply print_tree_quiet; [exact Hq|].
    simpl. rewrite nth_error_app2 by lia. now rewrite Nat.sub_diag. }
  split; [exact Hshow|].
  rewrite db_entries_count.
  replace (List.length d) with (List.length (keys d))
    by (unfold keys; apply length_map).
  apply keys_shorter_on_repeat; [exact Hnd|].
  rewrite Hkeys. intros y Hy. apply first_occurrences_In in Hy. tauto.
Qed.

Lemma repeated_database_name_witness :
  exists s1 lines,
    fetch_all_tables repeating_world ("u", 7%nat) ["A"; "B"; "A"]
      (mkState [CallMgmt "" ".show databases"] None [])
    = (Ok 0%nat, set_heap s1 [[("A", ["second"]); ("B", ["b"])]]) /\
    printed (snd (print_tree "u" 0%nat
                    (set_heap s1 [[("A", ["second"]); ("B", ["b"])]])))
    = printed s1 ++ (TreeStyle.CLUSTER +:+ "u") :: lines /\
    List.length lines = 4%nat.
Proof.
  destruct (repeated_database_name repeating_world ("u", 7%nat) "u"
              [] ["B"] [] "A"
              (mkState [CallMgmt "" ".show databases"] None [])
              eq_refl repeating_world_benign (fun H => H) (fun H => H))
    as [results [s1 [d [lines [Hl [Hf [_ [_ [[v [Hnth Hget]] [Hp [Hs _]]]]]]]]]]].
  exists s1, lines.
  assert (Hd : d = [("A", ["second"]); ("B", ["b"])]).
  { vm_compute in Hl. inversion Hl; subst results s1.
    vm_compute in Hf. now inversion Hf. }
  subst d. split; [exact Hf|]. split.
  - assert (Hp' : print_tree "u" 0%nat
                    (set_heap s1 [[("A", ["second"]); ("B", ["b"])]])
                  = (Ok tt,
                     add_events
                       (set_heap s1 [[("A", ["second"]); ("B", ["b"])]])
                       (map Print ((TreeStyle.CLUSTER +:+ "u") :: lines))))
      by exact Hp.
    rewrite Hp'. cbn [snd]. now rewrite printed_add_prints.
  - apply Forall2_length in Hs. exact Hs.
Defined.

(** ** The top level *)

(** C5.  When [get_databases] returns the empty list, all [main] does after
    that is print the "nothing found" message: it returns normally, so the
    process ends with status 0, no further management command is sent (no
    [get_tables]) and nothing of the tree is printed (no [print_tree]). *)
Theorem no_databases_found (w : World) (s0 sa sb s : State)
    (cluster_url : string) (client : KustoClient) :
  parse_args w s0 = (Ok cluster_url, sa) ->
  connect_to_kusto w cluster_url sa = (Ok client, sb) ->
  get_databases w client sb = (Ok [], s) ->
  interrupt s = None ->
  main w s0
  = (Ok tt,
     add_events s
       [Print "No databases found or unable to fetch databases."]) /\
  process_end (fst (main w s0)) = Exited 0 /\
  mgmt_calls (snd (main w s0)) = mgmt_calls s /\
  printed (snd (main w s0))
  = printed s ++ ["No databases found or unable to fetch databases."] /\
  heap (snd (main w s0)) = heap s.
Proof.
  intros Hp Hc Hg Hq.
  assert (Hmain : main w s0
                  = (Ok tt,
                     add_events s
                       [Print "No databases found or unable to fetch databases."])).
  { unfold main, main_try.
    rewrite (bind_Ok _ _ _ _ _ Hp), (bind_Ok _ _ _ _ _ Hc),
      (bind_Ok _ _ _ _ _ Hg).
    now rewrite (print_quiet _ s Hq). }
  rewrite Hmain. repeat split.
  - unfold mgmt_calls. simpl. rewrite filter_app. simpl. apply app_nil_r.
  - unfold printed. simpl. now rewrite printed_lines_app.
Qed.

Lemma no_databases_found_witness :
  main failing_world initial
  = (Ok tt,
     add_events initial
       ([CallParseArgs;
         LogInfo "Connecting to Kusto cluster: https://c.kusto.windows.net";
         CallCredential;
         CallConnectionString "https://c.kusto.windows.net";
         CallClient;
         LogInfo "Successfully connected to Kusto cluster"]
        ++ fetching_databases ++ databases_failed "timed out"
        ++ [Print "No databases found or unable to fetch databases."])) /\
  process_end (fst (main failing_world initial)) = Exited 0.
Proof.
  destruct (no_databases_found failing_world initial _ _ _ _ _
              eq_refl eq_refl eq_refl eq_refl) as [Hmain [Hend _]].
  split; [exact Hmain | exact Hend].
Defined.

Lemma connect_to_kusto_fails (w : World) (cluster_url : string)
    (calls : list Event) (e : string) (s : State) :
  interrupt s = None ->
  connector_failure w cluster_url calls e ->
  connect_to_kusto w cluster_url s
  = (Raise (SystemExit 1),
     add_events s
       (LogInfo ("Connecting to Kusto cluster: " +:+ cluster_url)
        :: calls ++ connection_failed e)).
Proof.
  intros Hq Hfail.
  unfold connect_to_kusto, try_except_Exception, bind, logger_info,
    logger_exception, print, traceback_print_exc, sys_exit, raise, ret.
  rewrite (emit_quiet _ s Hq).
  destruct Hfail as [e H1 | credential e H1 H2
                    | credential connection_string e H1 H2 H3].
  - rewrite extern_quiet by exact Hq. rewrite H1.
    rewrite !emit_quiet by exact Hq. now rewrite !add_events_app.
  - rewrite extern_quiet by exact Hq. rewrite H1.
    rewrite extern_quiet by exact Hq. rewrite H2.
    rewrite !emit_quiet by exact Hq. now rewrite !add_events_app.
  - rewrite extern_quiet by exact Hq. rewrite H1.
    rewrite extern_quiet by exact Hq. rewrite H2.
    rewrite extern_quiet by exact Hq. rewrite H3.
    rewrite !emit_quiet by exact Hq. now rewrite !add_events_app.
Qed.

Lemma connector_failure_no_mgmt (w : World) (cluster_url : string)
    (calls : list Event) (e : string) :
  connector_failure w cluster_url calls e -> filter is_mgmt calls = [].
Proof. intros H. destruct H; reflexivity. Qed.

(** C6.  When a step of the connector (the credential, the connection
    string, the client) raises an [Exception], [main] logs the error, prints
    it, prints the traceback and leaves through [sys.exit(1)]: the process
    ends with status 1.  Each step was called at most once, the failing one
    last, and no management command was sent. *)
Theorem connector_failure_is_fatal (w : World) (s0 s : State)
    (cluster_url : string) (calls : list Event) (e : string) :
  parse_args w s0 = (Ok cluster_url, s) ->
  interrupt s = None ->
  connector_failure w cluster_url calls e ->
  main w s0
  = (Raise (SystemExit 1),
     add_events s
       (LogInfo ("Connecting to Kusto cluster: " +:+ cluster_url)
        :: calls ++ connection_failed e)) /\
  process_end (fst (main w s0)) = Exited 1 /\
  Exited 1 <> Exited 0 /\
  mgmt_calls (snd (main w s0)) = mgmt_calls s.
Proof.
  intros Hp Hq Hfail.
  assert (Hmain : main w s0
                  = (Raise (SystemExit 1),
                     add_events s
                       (LogInfo ("Connecting to Kusto cluster: "
                                 +:+ cluster_url)
                        :: calls ++ connection_failed e))).
  { unfold main, main_try.
    rewrite (bind_Ok _ _ _ _ _ Hp).
    now rewrite (bind_Raise _ _ _ _ _
                   (connect_to_kusto_fails w cluster_url calls e s Hq Hfail)). }
  rewrite Hmain. repeat split.
  - discriminate.
  - unfold mgmt_calls. simpl. rewrite filter_app. simpl.
    rewrite filter_app, (connector_failure_no_mgmt _ _ _ _ Hfail). simpl.
    apply app_nil_r.
Qed.

Lemma connector_failure_is_fatal_witness :
  main no_credential_world initial
  = (Raise (SystemExit 1),
     add_events initial
       ([CallParseArgs;
         LogInfo "Connecting to Kusto cluster: https://c.kusto.windows.net";
         CallCredential]
        ++ connection_failed
             "DefaultAzureCredential failed to retrieve a token")) /\
  process_end (fst (main no_credential_world initial)) = Exited 1 /\
  mgmt_calls (snd (main no_credential_world initial)) = [].
Proof.
  destruct (connector_failure_is_fatal no_credential_world initial _ _ _ _
              eq_refl eq_refl
              (credential_fails no_credential_world _ _ eq_refl))
    as [Hmain [Hend [_ Hcalls]]].
  split; [exact Hmain|]. split; [exact Hend | exact Hcalls].
Defined.

(** ** Ctrl-C *)

Create HintDb delivers.

Lemma delivers_ret {A : Type} (a : A) : delivers (ret a).
Proof. intros s o s' H Hs Hs'. inversion H; subst. contradiction. Qed.

Lemma delivers_raise {A : Type} (e : exn) : delivers (@raise A e).
Proof. intros s o s' H Hs Hs'. inversion H; subst. contradiction. Qed.

Lemma delivers_lift {A : Type} (o : Outcome A) : delivers (lift o).
Proof. intros s o' s' H Hs Hs'. inversion H; subst. contradiction. Qed.

Lemma delivers_bind {A B : Type} (m : M A) (f : A -> M B) :
  delivers m -> (forall a, delivers (f a)) -> delivers (bind m f).
Proof.
  intros Hm Hf s o s' H Hs Hs'. unfold bind in H.
  destruct (m s) as [[a|e] s1] eqn:E.
  - destruct (interrupt s1) as [k|] eqn:Hi.
    + apply (Hf a s1 o s' H); [now rewrite Hi | exact Hs'].
    + discriminate (Hm s (Ok a) s1 E Hs Hi).
  - inversion H; subst.
    pose proof (Hm s _ _ E Hs Hs') as He. now inversion He.
Qed.

Lemma delivers_try_except {A : Type} (body : M A) (handler : string -> M A) :
  delivers body -> (forall e, delivers (handler e)) ->
  delivers (try_except_Exception body handler).
Proof.
  intros Hb Hh s o s' H Hs Hs'. unfold try_except_Exception in H.
  destruct (body s) as [[a|e] s1] eqn:E.
  - inversion H; subst. exact (Hb s _ _ E Hs Hs').
  - destruct e as [msg| |code].
    + destruct (interrupt s1) as [k|] eqn:Hi.
      * apply (Hh msg s1 o s' H); [now rewrite Hi | exact Hs'].
      * discriminate (Hb s _ s1 E Hs Hi).
    + inversion H; subst. reflexivity.
    + inversion H; subst. exact (Hb s _ _ E Hs Hs').
Qed.

Lemma delivers_for_each {A : Type} (l : list A) (body : A -> M unit) :
  (forall x, delivers (body x)) -> delivers (for_each l body).
Proof.
  intros Hb. induction l as [|x l IH]; simpl.
  - apply delivers_ret.
  - apply delivers_bind; [apply Hb | intros _; exact IH].
Qed.

Lemma delivers_emit (e : Event) : delivers (emit e).
Proof.
  intros s o s' H Hs Hs'. unfold emit, bind, checkpoint in H.
  destruct (interrupt s) as [[|k]|] eqn:Hi; inversion H; subst;
    try reflexivity; try discriminate. contradiction.
Qed.

Lemma delivers_extern {A : Type} (e : Event)
    (answer : list Event -> Outcome A) :
  delivers (extern e answer).
Proof.
  unfold extern. apply delivers_bind; [apply delivers_emit|].
  intros _ s o s' H Hs Hs'. inversion H; subst. contradiction.
Qed.

Lemma delivers_deref (r : ref) : delivers (deref r).
Proof.
  intros s o s' H Hs Hs'. unfold deref in H.
  destruct (nth_error (heap s) r); inversion H; subst; contradiction.
Qed.

Lemma delivers_new_dict : delivers new_dict.
Proof. intros s o s' H Hs Hs'. inversion H; subst. contradiction. Qed.

Lemma delivers_dict_setitem (r : ref) (k : string) (v : list string) :
  delivers (dict_setitem r k v).
Proof.
  unfold dict_setitem. apply delivers_bind; [apply delivers_deref|].
  intros d s o s' H Hs Hs'. inversion H; subst. contradiction.
Qed.

#[export] Hint Resolve delivers_ret delivers_raise delivers_lift
  delivers_emit delivers_extern delivers_deref delivers_new_dict
  delivers_dict_setitem : delivers.

Ltac delivers_step :=
  first [ solve [auto with delivers]
        | apply delivers_try_except; [|intro]
        | apply delivers_for_each; intro
        | apply delivers_bind; [|intro] ].

Ltac delivers_auto := repeat delivers_step.

Lemma delivers_parse_args (w : World) : delivers (parse_args w).
Proof. unfold parse_args. delivers_auto. Qed.

Lemma delivers_connect_to_kusto (w : World) (cluster_url : string) :
  delivers (connect_to_kusto w cluster_url).
Proof.
  unfold connect_to_kusto, logger_info, logger_exception, print,
    traceback_print_exc, sys_exit. delivers_auto.
Qed.

Lemma delivers_get_databases (w : World) (client : KustoClient) :
  delivers (get_databases w client).
Proof.
  unfold get_databases, execute_mgmt, logger_info, logger_exception, print,
    traceback_print_exc. delivers_auto.
Qed.

Lemma delivers_get_tables (w : World) (client : KustoClient)
    (database : string) :
  delivers (get_tables w client database).
Proof.
  unfold get_tables, execute_mgmt, logger_info, logger_exception, print,
    traceback_print_exc. delivers_auto.
Qed.

Lemma delivers_print_tables (db_prefix : string) (tables : list string) :
  delivers (print_tables db_prefix tables).
Proof.
  unfold print_tables, print. apply delivers_for_each. intros [j table].
  destruct (j =? len tables - 1); apply delivers_emit.
Qed.

Lemma delivers_print_tree (cluster_url : string) (r : ref) :
  delivers (print_tree cluster_url r).
Proof.
  unfold print_tree, dict_len, dict_items, print.
  apply delivers_bind; [apply delivers_emit | intros _].
  apply delivers_bind; [delivers_auto | intros db_count].
  apply delivers_bind; [apply delivers_deref | intros items].
  apply delivers_for_each. intros [i [db tables]].
  apply delivers_bind; [|intros p; apply delivers_print_tables].
  destruct (i =? db_count - 1); delivers_auto.
Qed.

Lemma delivers_fetch_all_tables (w : World) (client : KustoClient)
    (databases : list string) :
  delivers (fetch_all_tables w client databases).
Proof.
  unfold fetch_all_tables.
  apply delivers_bind; [apply delivers_new_dict | intros r].
  apply delivers_bind; [|intros _; apply delivers_ret].
  apply delivers_for_each. intros db.
  apply delivers_bind; [apply delivers_get_tables|].
  intros tables. apply delivers_dict_setitem.
Qed.

Lemma delivers_main_try (w : World) : delivers (main_try w).
Proof.
  unfold main_try.
  apply delivers_bind; [apply delivers_parse_args | intros cluster_url].
  apply delivers_bind; [apply delivers_connect_to_kusto | intros client].
  apply delivers_bind; [apply delivers_get_databases | intros databases].
  destruct databases as [|db rest]; [apply delivers_emit|].
  apply delivers_bind; [apply delivers_fetch_all_tables | intros r].
  apply delivers_bind; [apply delivers_print_tree | intros _].
  apply delivers_emit.
Qed.

(** C7.  A [KeyboardInterrupt] raised while the [try] of [main] runs,
    whether a pending Ctrl-C is delivered at some effect of the run (in
    [main] itself, in a function it calls or in one of their handlers) or a
    library call raises it, reaches the top level: [main] logs and prints
    the interruption message, once, and returns normally.  It does not take
    the path of [except Exception], so it does not call [sys.exit]. *)
Theorem keyboard_interrupt_handled (w : World) (s s1 : State)
    (o : Outcome unit) :
  main_try w s = (o, s1) ->
  interrupt s1 = None ->
  o = Raise KeyboardInterrupt \/ interrupt s <> None ->
  o = Raise KeyboardInterrupt /\
  main w s
  = (Ok tt,
     add_events s1
       [LogInfo "Execution interrupted by user";
        Print (NEWLINE +:+ "Execution interrupted by user")]) /\
  process_end (fst (main w s)) = Exited 0.
Proof.
  intros Hrun Hq1 Hcase.
  assert (Ho : o = Raise KeyboardInterrupt).
  { destruct Hcase as [Ho|Hs]; [exact Ho|].
    exact (delivers_main_try w s o s1 Hrun Hs Hq1). }
  subst o.
  assert (Hmain : main w s
                  = (Ok tt,
                     add_events s1
                       [LogInfo "Execution interrupted by user";
                        Print (NEWLINE +:+ "Execution interrupted by user")])).
  { unfold main. rewrite Hrun. unfold bind, logger_info, print.
    rewrite !emit_quiet by exact Hq1. now rewrite add_events_app. }
  rewrite Hmain. repeat split.
Qed.

Lemma keyboard_interrupt_handled_witness :
  exists s1,
    main_try sample_world interrupted_start = (Raise KeyboardInterrupt, s1) /\
    mgmt_calls s1
    = [CallMgmt "" ".show databases"; show_tables "C"] /\
    main sample_world interrupted_start
    = (Ok tt,
       add_events s1
         [LogInfo "Execution interrupted by user";
          Print (NEWLINE +:+ "Execution interrupted by user")]) /\
    process_end (fst (main sample_world interrupted_start)) = Exited 0.
Proof.
  assert (Hq : interrupt (snd (main_try sample_world interrupted_start))
               = None) by (vm_compute; reflexivity).
  assert (Hs : interrupt interrupted_start <> None)
    by (simpl; discriminate).
  destruct (keyboard_interrupt_handled sample_world interrupted_start
              _ _ (surjective_pairing _) Hq (or_intror Hs))
    as [Ho [Hmain Hend]].
  exists (snd (main_try sample_world interrupted_start)).
  split; [rewrite <- Ho; apply surjective_pairing|].
  split; [vm_compute; reflexivity|].
  split; [exact Hmain | exact Hend].
Defined.

(** ** Further properties of the metadata fetcher *)

Lemma row_getitem_lacks (col : string) (row : Row) :
  lacks_column col row ->
  row_getitem row col = Raise (Exception_ ("'" +:+ col +:+ "'")).
Proof.
  induction row as [|[c v] row IH]; intros Hl; simpl; [reflexivity|].
  destruct (String.eqb c col) eqn:E.
  - apply String.eqb_eq in E. subst c. exfalso. apply (Hl v). now left.
  - apply IH. intros v' Hin. apply (Hl v'). now right.
Qed.

Lemma row_getitem_KeyError (col : string) (row : Row) (e : exn) :
  row_getitem row col = Raise e -> e = Exception_ ("'" +:+ col +:+ "'").
Proof.
  induction row as [|[c v] row IH]; simpl; intros H.
  - now inversion H.
  - destruct (String.eqb c col); [discriminate | now apply IH].
Qed.

Lemma column_has_column (col : string) (rows : list Row)
    (names : list string) :
  column col rows = Ok names <-> has_column col rows names.
Proof.
  unfold has_column. revert names.
  induction rows as [|row rows IH]; intros names; simpl.
  - split; intros H; [inversion H; constructor | now inversion H].
  - split.
    + intros H. destruct (row_getitem row col) as [v|e] eqn:Hrow;
        [|discriminate].
      destruct (column col rows) as [vs|e] eqn:Hcol; [|discriminate].
      inversion H; subst. constructor; [exact Hrow | now apply IH].
    + intros H. inversion H as [|? name ? rest Hrow Hrest]; subst.
      rewrite Hrow. apply IH in Hrest. now rewrite Hrest.
Qed.

Lemma column_lacks (col : string) (rows : list Row) (row : Row) :
  In row rows ->
  lacks_column col row ->
  column col rows = Raise (Exception_ ("'" +:+ col +:+ "'")).
Proof.
  intros Hin Hl. induction rows as [|row0 rows IH]; [contradiction|].
  simpl. destruct (row_getitem row0 col) as [v|e] eqn:Hrow.
  - destruct Hin as [Heq|Hin].
    + subst row0. rewrite (row_getitem_lacks col row Hl) in Hrow.
      discriminate.
    + now rewrite (IH Hin).
  - now rewrite (row_getitem_KeyError col row0 e Hrow).
Qed.

(** X1.  A listing that succeeds returns the name column of the first
    result set, one name per row and in row order; further result sets and
    other columns are not read.  Each of the two listings does so on its
    own answer. *)
Theorem listing_returns_column (w : World) (client : KustoClient)
    (database : string) (s : State) :
  interrupt s = None ->
  (forall (rows : list Row) (more : list (list Row))
          (databases : list string),
     server w (trace s ++ fetching_databases) client "" ".show databases"
     = Ok (mkResponse (rows :: more)) ->
     has_column "DatabaseName" rows databases ->
     get_databases w client s
     = (Ok databases,
        add_events s
          (fetching_databases
           ++ [LogInfo ("Found " +:+ str_of_len (len databases)
                        +:+ " databases")])) /\
     List.length databases = List.length rows) /\
  (forall (rows : list Row) (more : list (list Row))
          (tables : list string),
     server w (trace s ++ fetching_tables database) client database
       ".show tables"
     = Ok (mkResponse (rows :: more)) ->
     has_column "TableName" rows tables ->
     get_tables w client database s
     = (Ok tables,
        add_events s
          (fetching_tables database
           ++ [LogInfo ("Found " +:+ str_of_len (len tables)
                        +:+ " tables in database " +:+ database)])) /\
     List.length tables = List.length rows).
Proof.
  intros Hq. split.
  - intros rows more databases Hd Hcd. split.
    + rewrite (get_databases_quiet w client s Hq). cbv zeta.
      rewrite trace_add_events, Hd. unfold listing. simpl.
      apply column_has_column in Hcd. rewrite Hcd.
      now rewrite add_events_app.
    + symmetry. exact (Forall2_length Hcd).
  - intros rows more tables Ht Hct. split.
    + rewrite (get_tables_quiet w client database s Hq). cbv zeta.
      rewrite trace_add_events, Ht. unfold listing. simpl.
      apply column_has_column in Hct. rewrite Hct.
      now rewrite add_events_app.
    + symmetry. exact (Forall2_length Hct).
Qed.

(** The databases of the wide cluster; and, on the sample cluster, whose
    listing of B fails, the tables of A. *)
Lemma listing_returns_column_witness :
  fst (get_databases wide_world ("u", 7%nat) initial) = Ok ["D"; "E"] /\
  fst (get_tables wide_world ("u", 7%nat) "E" initial) = Ok ["z"; "a"] /\
  fst (get_tables sample_world ("u", 7%nat) "A" initial)
  = Ok ["A_z"; "A_a"].
Proof.
  destruct (listing_returns_column wide_world ("u", 7%nat) "E" initial
              eq_refl) as [Hd Ht].
  destruct (Hd [ [("DatabaseName", "D"); ("PrettyName", "d")];
                 [("PrettyName", "e"); ("DatabaseName", "E")] ]
               [ [ [("DatabaseName", "hidden")] ] ]
               ["D"; "E"] eq_refl ltac:(repeat constructor)) as [Hgd _].
  destruct (Ht [ [("Folder", "f"); ("TableName", "z")];
                 [("TableName", "a"); ("Folder", "g")] ]
               [ [ [("TableName", "other")] ] ]
               ["z"; "a"] eq_refl ltac:(repeat constructor)) as [Hgt _].
  destruct (listing_returns_column sample_world ("u", 7%nat) "A" initial
              eq_refl) as [_ Ht'].
  destruct (Ht' [ [("TableName", "A_z")]; [("TableName", "A_a")] ] []
                ["A_z"; "A_a"] eq_refl ltac:(repeat constructor))
    as [Hga _].
  rewrite Hgd, Hgt, Hga. repeat split.
Defined.

(** X2.  One row without the name column discards the whole listing: the
    function reports the [KeyError] and returns the empty list, also when
    other rows carry names.  Each of the two listings does so on its own
    answer. *)
Theorem listing_row_without_column (w : World) (client : KustoClient)
    (database : string) (s : State) :
  interrupt s = None ->
  (forall (rows : list Row) (more : list (list Row)) (row : Row),
     server w (trace s ++ fetching_databases) client "" ".show databases"
     = Ok (mkResponse (rows :: more)) ->
     In row rows ->
     lacks_column "DatabaseName" row ->
     get_databases w client s
     = (Ok [], add_events s (fetching_databases
                             ++ databases_failed "'DatabaseName'"))) /\
  (forall (rows : list Row) (more : list (list Row)) (row : Row),
     server w (trace s ++ fetching_tables database) client database
       ".show tables"
     = Ok (mkResponse (rows :: more)) ->
     In row rows ->
     lacks_column "TableName" row ->
     get_tables w client database s
     = (Ok [], add_events s (fetching_tables database
                             ++ tables_failed database "'TableName'"))).
Proof.
  intros Hq. split.
  - intros rows more row Hd Hin Hl.
    rewrite (get_databases_quiet w client s Hq). cbv zeta.
    rewrite trace_add_events, Hd. unfold listing. simpl.
    rewrite (column_lacks _ _ _ Hin Hl). now rewrite add_events_app.
  - intros rows more row Ht Hin Hl.
    rewrite (get_tables_quiet w client database s Hq). cbv zeta.
    rewrite trace_add_events, Ht. unfold listing. simpl.
    rewrite (column_lacks _ _ _ Hin Hl). now rewrite add_events_app.
Qed.

Lemma listing_row_without_column_witness :
  fst (get_databases malformed_world ("u", 7%nat) initial) = Ok [] /\
  fst (get_tables malformed_world ("u", 7%nat) "D" initial) = Ok [] /\
  printed (snd (get_tables malformed_world ("u", 7%nat) "D" initial))
  = ["Error fetching tables for database D: 'TableName'"].
Proof.
  destruct (listing_row_without_column malformed_world ("u", 7%nat) "D"
              initial eq_refl) as [Hd Ht].
  rewrite (Hd [ [("DatabaseName", "D")]; [("PrettyName", "e")] ] []
              [("PrettyName", "e")] eq_refl
              ltac:(simpl; tauto)
              ltac:(intros v [H|[]]; discriminate)).
  rewrite (Ht [ [("TableName", "t1")]; [("Folder", "f")];
                [("TableName", "t3")] ] []
              [("Folder", "f")] eq_refl
              ltac:(simpl; tauto)
              ltac:(intros v [H|[]]; discriminate)).
  repeat split.
Defined.

(** X3.  An answer without any result set is reported as an error too: the
    function reports the [IndexError] and returns the empty list.  Each of
    the two listings does so on its own answer. *)
Theorem listing_without_result_set (w : World) (client : KustoClient)
    (database : string) (s : State) :
  interrupt s = None ->
  (server w (trace s ++ fetching_databases) client "" ".show databases"
   = Ok (mkResponse []) ->
   get_databases w client s
   = (Ok [], add_events s (fetching_databases
                           ++ databases_failed "list index out of range"))) /\
  (server w (trace s ++ fetching_tables database) client database
     ".show tables"
   = Ok (mkResponse []) ->
   get_tables w client database s
   = (Ok [], add_events s (fetching_tables database
                           ++ tables_failed database
                                "list index out of range"))).
Proof.
  intros Hq. split.
  - intros Hd. rewrite (get_databases_quiet w client s Hq). cbv zeta.
    rewrite trace_add_events, Hd. simpl. now rewrite add_events_app.
  - intros Ht. rewrite (get_tables_quiet w client database s Hq). cbv zeta.
    rewrite trace_add_events, Ht. simpl. now rewrite add_events_app.
Qed.

Lemma listing_without_result_set_witness :
  get_databases empty_world ("u", 7%nat) initial
  = (Ok [], add_events initial
              (fetching_databases
               ++ databases_failed "list index out of range")) /\
  get_tables empty_world ("u", 7%nat) "D" initial
  = (Ok [], add_events initial
              (fetching_tables "D"
               ++ tables_failed "D" "list index out of range")).
Proof.
  destruct (listing_without_result_set empty_world ("u", 7%nat) "D" initial
              eq_refl) as [Hd Ht].
  split; [exact (Hd eq_refl) | exact (Ht eq_refl)].
Defined.

(** X4.  An exception of the server that is no [Exception] (a
    [KeyboardInterrupt], a [SystemExit]) leaves the listing as it is: the
    handler does not run, nothing is printed and no list is returned.
    Each of the two listings does so on its own command. *)
Theorem listing_passes_non_Exception (w : World) (client : KustoClient)
    (database : string) (s : State) :
  interrupt s = None ->
  (forall e : exn,
     server w (trace s ++ fetching_databases) client "" ".show databases"
     = Raise e ->
     is_Exception e = false ->
     get_databases w client s
     = (Raise e, add_events s fetching_databases)) /\
  (forall e : exn,
     server w (trace s ++ fetching_tables database) client database
       ".show tables"
     = Raise e ->
     is_Exception e = false ->
     get_tables w client database s
     = (Raise e, add_events s (fetching_tables database))).
Proof.
  intros Hq. split.
  - intros e Hd He. rewrite (get_databases_quiet w client s Hq). cbv zeta.
    rewrite trace_add_events, Hd. simpl.
    destruct e; [discriminate | reflexivity | reflexivity].
  - intros e Ht He. rewrite (get_tables_quiet w client database s Hq).
    cbv zeta. rewrite trace_add_events, Ht. simpl.
    destruct e; [discriminate | reflexivity | reflexivity].
Qed.

Lemma listing_passes_non_Exception_witness :
  get_databases interrupting_world ("u", 7%nat) initial
  = (Raise KeyboardInterrupt, add_events initial fetching_databases) /\
  get_tables interrupting_world ("u", 7%nat) "D" initial
  = (Raise KeyboardInterrupt, add_events initial (fetching_tables "D")).
Proof.
  destruct (listing_passes_non_Exception interrupting_world ("u", 7%nat) "D"
              initial eq_refl) as [Hd Ht].
  split; [exact (Hd KeyboardInterrupt eq_refl eq_refl)
         | exact (Ht KeyboardInterrupt eq_refl eq_refl)].
Defined.

(** ** Further properties of the connector and of the top level *)

Lemma parse_args_quiet (w : World) (s : State) :
  interrupt s = None ->
  parse_args w s = (argparse_result w, add_events s [CallParseArgs]).
Proof. intros Hq. unfold parse_args. now rewrite extern_quiet. Qed.

Lemma connect_to_kusto_quiet (w : World) (cluster_url : string)
    (credential : Credential) (connection_string : ConnectionString)
    (client : KustoClient) (s : State) :
  interrupt s = None ->
  DefaultAzureCredential w = Ok credential ->
  with_azure_token_credential w cluster_url credential
  = Ok connection_string ->
  KustoClient_init w connection_string = Ok client ->
  connect_to_kusto w cluster_url s
  = (Ok client, add_events s (connected cluster_url)).
Proof.
  intros Hq H1 H2 H3.
  unfold connect_to_kusto, try_except_Exception, bind, logger_info, ret.
  rewrite (emit_quiet _ s Hq).
  rewrite extern_quiet by exact Hq. rewrite H1.
  rewrite extern_quiet by exact Hq. rewrite H2.
  rewrite extern_quiet by exact Hq. rewrite H3.
  rewrite emit_quiet by exact Hq. now rewrite !add_events_app.
Qed.

(** X7.  When the three library calls of the connector return, the
    connector returns the client [KustoClient] built, from the connection
    string built for this cluster URL and the credential obtained; each
    library is called once, in that order, between the two log lines. *)
Theorem connect_to_kusto_returns_client (w : World) (cluster_url : string)
    (credential : Credential) (connection_string : ConnectionString)
    (client : KustoClient) (s : State) :
  interrupt s = None ->
  DefaultAzureCredential w = Ok credential ->
  with_azure_token_credential w cluster_url credential
  = Ok connection_string ->
  KustoClient_init w connection_string = Ok client ->
  connect_to_kusto w cluster_url s
  = (Ok client,
     add_events s
       [LogInfo ("Connecting to Kusto cluster: " +:+ cluster_url);
        CallCredential;
        CallConnectionString cluster_url;
        CallClient;
        LogInfo "Successfully connected to Kusto cluster"]) /\
  printed (snd (connect_to_kusto w cluster_url s)) = printed s.
Proof.
  intros Hq H1 H2 H3.
  rewrite (connect_to_kusto_quiet w cluster_url credential connection_string
             client s Hq H1 H2 H3).
  split; [reflexivity|].
  unfold printed. simpl. rewrite printed_lines_app. simpl.
  apply app_nil_r.
Qed.

Lemma connect_to_kusto_returns_client_witness :
  fst (connect_to_kusto sample_world "https://c" initial)
  = Ok ("https://c", 7%nat).
Proof.
  destruct (connect_to_kusto_returns_client sample_world "https://c"
              7%nat ("https://c", 7%nat) ("https://c", 7%nat) initial
              eq_refl eq_refl eq_refl eq_refl) as [H _].
  now rewrite H.
Defined.

(** X8.  An [Exception] raised while the arguments are parsed takes the
    generic path of [main]: it is logged, printed with its traceback, and
    the process ends with status 1; no library of the connector is called
    and no management command is sent. *)
Theorem unexpected_error_exits_1 (w : World) (s : State) (e : string) :
  interrupt s = None ->
  argparse_result w = Raise (Exception_ e) ->
  main w s
  = (Raise (SystemExit 1),
     add_events s (CallParseArgs :: unexpected_error e)) /\
  process_end (fst (main w s)) = Exited 1 /\
  printed (snd (main w s)) = printed s ++ ["Unexpected error: " +:+ e].
Proof.
  intros Hq Ha.
  assert (Hmain : main w s
                  = (Raise (SystemExit 1),
                     add_events s (CallParseArgs :: unexpected_error e))).
  { unfold main, main_try.
    rewrite (bind_Raise _ _ _ _ _
               (eq_trans (parse_args_quiet w s Hq)
                  (f_equal (fun o => (o, add_events s [CallParseArgs])) Ha))).
    unfold bind, logger_exception, print, traceback_print_exc, sys_exit,
      raise.
    rewrite !emit_quiet by exact Hq. now rewrite !add_events_app. }
  rewrite Hmain. repeat split.
  unfold printed. simpl. rewrite printed_lines_app. reflexivity.
Qed.

Lemma unexpected_error_exits_1_witness :
  main broken_argv_world initial
  = (Raise (SystemExit 1),
     add_events initial (CallParseArgs :: unexpected_error "bad argv")) /\
  process_end (fst (main broken_argv_world initial)) = Exited 1.
Proof.
  destruct (unexpected_error_exits_1 broken_argv_world initial "bad argv"
              eq_refl eq_refl) as [H1 [H2 _]].
  split; assumption.
Defined.

(** X9.  A [SystemExit] of argparse (a usage error, [--help]) passes through
    both [except] clauses of [main]: the process ends with the status
    argparse chose, and [main] logs and prints nothing. *)
Theorem argparse_exit_passes_through (w : World) (s : State) (code : Z) :
  interrupt s = None ->
  argparse_result w = Raise (SystemExit code) ->
  main w s = (Raise (SystemExit code), add_events s [CallParseArgs]) /\
  process_end (fst (main w s)) = Exited code.
Proof.
  intros Hq Ha.
  assert (Hmain : main w s
                  = (Raise (SystemExit code), add_events s [CallParseArgs])).
  { unfold main, main_try.
    now rewrite (bind_Raise _ _ _ _ _
                   (eq_trans (parse_args_quiet w s Hq)
                      (f_equal (fun o => (o, add_events s [CallParseArgs]))
                         Ha))). }
  rewrite Hmain. split; reflexivity.
Qed.

Lemma argparse_exit_passes_through_witness :
  main usage_error_world initial
  = (Raise (SystemExit 2), add_events initial [CallParseArgs]) /\
  process_end (fst (main usage_error_world initial)) = Exited 2.
Proof.
  exact (argparse_exit_passes_through usage_error_world initial 2
           eq_refl eq_refl).
Defined.

(** ** Further properties of the renderer *)

(** The comparison of the index with [count - 1] finds the last item. *)
Lemma table_lines_render (db_prefix : string) (tables : list string) :
  forall j n,
    n = j + len tables ->
    map (table_line db_prefix n) (enumerate_from j tables)
    = render_tables db_prefix tables.
Proof.
  induction tables as [|table rest IH]; intros j n Hn; [reflexivity|].
  simpl. unfold table_line at 1. simpl.
  unfold len in Hn. simpl List.length in Hn.
  destruct rest as [|table' rest'].
  - simpl in *. replace (j =? n - 1) with true; [reflexivity|].
    symmetry. apply Z.eqb_eq. lia.
  - replace (j =? n - 1) with false.
    + f_equal. apply IH. unfold len. simpl List.length in *. lia.
    + symmetry. apply Z.eqb_neq. simpl List.length in Hn. lia.
Qed.

Lemma database_lines_render (d : Dict) :
  forall i n,
    n = i + len d ->
    flat_map (database_lines n) (enumerate_from i d) = render_databases d.
Proof.
  induction d as [|[db tables] rest IH]; intros i n Hn; [reflexivity|].
  simpl. unfold database_lines at 1. simpl.
  unfold len in Hn. simpl List.length in Hn.
  unfold enumerate.
  destruct rest as [|kv rest'].
  - simpl in *. replace (i =? n - 1) with true.
    + rewrite app_nil_r. f_equal. apply table_lines_render. lia.
    + symmetry. apply Z.eqb_eq. lia.
  - replace (i =? n - 1) with false.
    + f_equal. f_equal.
      * apply table_lines_render. lia.
      * apply IH. unfold len. simpl List.length in *. lia.
    + symmetry. apply Z.eqb_neq. simpl List.length in Hn. lia.
Qed.

Lemma tree_lines_render (cluster_url : string) (d : Dict) :
  tree_lines cluster_url d
  = (TreeStyle.CLUSTER +:+ cluster_url) :: render_databases d.
Proof.
  unfold tree_lines, enumerate. f_equal. apply database_lines_render. lia.
Qed.

(** X10.  The markers follow the position among the siblings: exactly the
    last database of the map has the elbow, and its tables are indented
    with blanks; every other database has the tee, and its tables are
    indented with the pipe; among the tables of a database exactly the last
    one has the elbow. *)
Theorem print_tree_last_sibling_markers (cluster_url : string) (r : ref)
    (d : Dict) (s : State) :
  interrupt s = None ->
  nth_error (heap s) r = Some d ->
  print_tree cluster_url r s
  = (Ok tt,
     add_events s
       (map Print
          ((TreeStyle.CLUSTER +:+ cluster_url) :: render_databases d))).
Proof.
  intros Hq Hr. rewrite <- tree_lines_render. now apply print_tree_quiet.
Qed.

Lemma print_tree_last_sibling_markers_witness :
  printed (snd (print_tree "u" 0%nat
                  (mkState [] None
                     [[("A", ["t1"; "t2"]); ("B", []); ("C", ["t3"; "t4"])]])))
  = [ TreeStyle.CLUSTER +:+ "u";
      TreeStyle.TEE +:+ TreeStyle.DATABASE +:+ "A";
      TreeStyle.PIPE +:+ TreeStyle.TEE +:+ TreeStyle.TABLE +:+ "t1";
      TreeStyle.PIPE +:+ TreeStyle.ELBOW +:+ TreeStyle.TABLE +:+ "t2";
      TreeStyle.TEE +:+ TreeStyle.DATABASE +:+ "B";
      TreeStyle.ELBOW +:+ TreeStyle.DATABASE +:+ "C";
      TreeStyle.SPACE +:+ TreeStyle.TEE +:+ TreeStyle.TABLE +:+ "t3";
      TreeStyle.SPACE +:+ TreeStyle.ELBOW +:+ TreeStyle.TABLE +:+ "t4" ].
Proof.
  rewrite (print_tree_last_sibling_markers "u" 0%nat
             [("A", ["t1"; "t2"]); ("B", []); ("C", ["t3"; "t4"])]
             (mkState [] None
                [[("A", ["t1"; "t2"]); ("B", []); ("C", ["t3"; "t4"])]])
             eq_refl eq_refl).
  reflexivity.
Defined.

(** X11.  On an empty map [print_tree] prints the root line and nothing
    else. *)
Theorem print_tree_empty_map (cluster_url : string) (r : ref) (s : State) :
  interrupt s = None ->
  nth_error (heap s) r = Some [] ->
  print_tree cluster_url r s
  = (Ok tt, add_events s [Print (TreeStyle.CLUSTER +:+ cluster_url)]).
Proof.
  intros Hq Hr. now rewrite (print_tree_quiet cluster_url r [] s Hq Hr).
Qed.

Lemma print_tree_empty_map_witness :
  print_tree "u" 0%nat (mkState [] None [[]])
  = (Ok tt, mkState [Print (TreeStyle.CLUSTER +:+ "u")] None [[]]).
Proof.
  exact (print_tree_empty_map "u" 0%nat (mkState [] None [[]])
           eq_refl eq_refl).
Defined.

(** *** Printing under an interrupt *)

Lemma emit_run (e : Event) (s : State) :
  emit e s
  = match interrupt s with
    | None => (Ok tt, add_events s [e])
    | Some O => (Raise KeyboardInterrupt, set_interrupt s None)
    | Some (S k) => (Ok tt, add_events (set_interrupt s (Some k)) [e])
    end.
Proof.
  unfold emit, bind, checkpoint. destruct (interrupt s) as [[|k]|];
    reflexivity.
Qed.

Lemma set_interrupt_same (s : State) (i : option nat) :
  interrupt s = i -> set_interrupt s i = s.
Proof. intros <-. now destruct s. Qed.

(** A pending interrupt cuts a sequence of effects after [k] of them. *)
Lemma emit_all_run (es : list Event) :
  forall s k,
    interrupt s = Some k ->
    emit_all es s
    = if (List.length es <=? k)%nat
      then (Ok tt,
            add_events (set_interrupt s (Some (k - List.length es)%nat)) es)
      else (Raise KeyboardInterrupt,
            add_events (set_interrupt s None) (firstn k es)).
Proof.
  induction es as [|e es IH]; intros s k Hk.
  - simpl. rewrite Nat.sub_0_r, (set_interrupt_same s (Some k) Hk).
    now rewrite add_events_nil.
  - unfold emit_all in *. simpl for_each. unfold bind at 1.
    rewrite emit_run, Hk. destruct k as [|k].
    + simpl. now rewrite add_events_nil.
    + rewrite (IH (add_events (set_interrupt s (Some k)) [e]) k eq_refl).
      simpl List.length. simpl firstn.
      change (S (List.length es) <=? S k)%nat
        with (List.length es <=? k)%nat.
      change (S k - S (List.length es))%nat with (k - List.length es)%nat.
      destruct (List.length es <=? k)%nat;
        unfold add_events, set_trace, set_interrupt; simpl;
        now rewrite <- app_assoc.
Qed.

Lemma emit_all_quiet (es : list Event) (s : State) :
  interrupt s = None -> emit_all es s = (Ok tt, add_events s es).
Proof.
  intros Hq. unfold emit_all.
  rewrite (for_each_emits emit (fun e => [e])).
  - now rewrite flat_map_singleton, map_id.
  - intros e s0 Hq0. now apply emit_quiet.
  - exact Hq.
Qed.

Lemma bind_assoc {A B C : Type} (m : M A) (f : A -> M B) (g : B -> M C)
    (s : State) :
  bind (bind m f) g s = bind m (fun a => bind (f a) g) s.
Proof. unfold bind. destruct (m s) as [[a|e] s1]; reflexivity. Qed.

Lemma bind_ext {A B : Type} (m : M A) (f g : A -> M B) (s : State) :
  (forall a s', f a s' = g a s') -> bind m f s = bind m g s.
Proof.
  intros H. unfold bind. destruct (m s) as [[a|e] s1];
    [apply H | reflexivity].
Qed.

Lemma emit_all_app (es1 es2 : list Event) (s : State) :
  emit_all (es1 ++ es2) s
  = bind (emit_all es1) (fun _ => emit_all es2) s.
Proof.
  revert s. unfold emit_all.
  induction es1 as [|e es1 IH]; intros s; [reflexivity|].
  simpl. rewrite bind_assoc. apply bind_ext. intros _ s'. apply IH.
Qed.

Lemma emits_emit (e : Event) : emits (emit e) [e].
Proof.
  intros s. unfold emit_all. simpl. unfold bind at 1.
  now destruct (emit e s) as [[[]|e'] s1].
Qed.

Lemma emits_seq (m1 m2 : M unit) (es1 es2 : list Event) :
  emits m1 es1 -> emits m2 es2 ->
  emits (bind m1 (fun _ => m2)) (es1 ++ es2).
Proof.
  intros H1 H2 s. rewrite emit_all_app. unfold bind. rewrite H1.
  destruct (emit_all es1 s) as [[[]|e'] s1]; [apply H2 | reflexivity].
Qed.

Lemma emits_for_each {A : Type} (body : A -> M unit)
    (out : A -> list Event) (l : list A) :
  (forall x, emits (body x) (out x)) ->
  emits (for_each l body) (flat_map out l).
Proof.
  intros Hb. induction l as [|x l IH]; simpl.
  - intros s. reflexivity.
  - apply emits_seq; [apply Hb | exact IH].
Qed.

Lemma emits_print_tables (db_prefix : string) (tables : list string) :
  emits (print_tables db_prefix tables)
    (map Print (map (table_line db_prefix (len tables))
                  (enumerate tables))).
Proof.
  unfold print_tables. rewrite map_map, <- flat_map_singleton.
  apply emits_for_each. intros [j table]. unfold table_line. simpl.
  destruct (j =? len tables - 1); apply emits_emit.
Qed.

Lemma heap_emit_all (es : list Event) (s : State) :
  heap (snd (emit_all es s)) = heap s.
Proof.
  revert s. unfold emit_all. induction es as [|e es IH]; intros s;
    [reflexivity|].
  simpl. unfold bind. rewrite emit_run.
  destruct (interrupt s) as [[|k]|];
    [reflexivity | now rewrite IH | now rewrite IH].
Qed.

Lemma flat_map_map_each {A B C : Type} (f : B -> C) (g : A -> list B)
    (l : list A) :
  flat_map (fun x => map f (g x)) l = map f (flat_map g l).
Proof.
  induction l as [|x l IH]; cbn [flat_map map]; [reflexivity|].
  now rewrite map_app, IH.
Qed.

Lemma emit_all_cons (e : Event) (es : list Event) (s : State) :
  emit_all (e :: es) s = bind (emit e) (fun _ => emit_all es) s.
Proof. reflexivity. Qed.

Lemma bind_emit_ext {B : Type} (e : Event) (f g : unit -> M B) (s : State) :
  (forall s', heap s' = heap s -> f tt s' = g tt s') ->
  bind (emit e) f s = bind (emit e) g s.
Proof.
  intros H. unfold bind. rewrite emit_run.
  destruct (interrupt s) as [[|k]|]; [reflexivity | now apply H | now apply H].
Qed.

(** [print_tree] is the prints of the lines of the tree, one after the
    other, from every state. *)
Lemma print_tree_emits (cluster_url : string) (r : ref) (d : Dict)
    (s : State) :
  nth_error (heap s) r = Some d ->
  print_tree cluster_url r s
  = emit_all (map Print (tree_lines cluster_url d)) s.
Proof.
  intros Hr. unfold print_tree, tree_lines. cbn [map].
  rewrite emit_all_cons. unfold print at 1.
  apply bind_emit_ext. intros s1 Hh.
  assert (Hlen : dict_len r s1 = (Ok (len d), s1)).
  { unfold dict_len, deref, bind, ret. now rewrite Hh, Hr. }
  assert (Hitems : dict_items r s1 = (Ok d, s1)).
  { unfold dict_items, deref. now rewrite Hh, Hr. }
  rewrite (bind_Ok _ _ _ _ _ Hlen), (bind_Ok _ _ _ _ _ Hitems).
  assert (Hbody : emits
            (for_each (enumerate d)
               (fun '(i, (db, tables)) =>
                  bind (if i =? len d - 1
                        then bind (print (TreeStyle.ELBOW
                                          +:+ TreeStyle.DATABASE +:+ db))
                               (fun _ => ret TreeStyle.SPACE)
                        else bind (print (TreeStyle.TEE
                                          +:+ TreeStyle.DATABASE +:+ db))
                               (fun _ => ret TreeStyle.PIPE))
                    (fun db_prefix => print_tables db_prefix tables)))
            (flat_map (fun x => map Print (database_lines (len d) x))
               (enumerate d))).
  { apply emits_for_each. intros [i [db tables]] s0.
    unfold database_lines. cbn [fst snd]. cbv zeta.
    destruct (i =? len d - 1); cbn [map]; rewrite emit_all_cons, bind_assoc;
      unfold print; apply bind_ext; intros _ s'; apply emits_print_tables. }
  rewrite (Hbody s1). f_equal. apply flat_map_map_each.
Qed.

(** X12.  A Ctrl-C that arrives while the tree is printed cuts it after the
    lines printed so far: with the interrupt due after [k] effects,
    [print_tree] prints the first [k] lines of the tree and raises
    [KeyboardInterrupt]; when the tree has no more than [k] lines it is
    printed in full and the interrupt stays pending. *)
Theorem print_tree_interrupted (cluster_url : string) (r : ref) (d : Dict)
    (s : State) (k : nat) (lines : list string) :
  interrupt s = Some k ->
  nth_error (heap s) r = Some d ->
  lines = (TreeStyle.CLUSTER +:+ cluster_url) :: render_databases d ->
  print_tree cluster_url r s
  = if (List.length lines <=? k)%nat
    then (Ok tt,
          add_events (set_interrupt s (Some (k - List.length lines)%nat))
            (map Print lines))
    else (Raise KeyboardInterrupt,
          add_events (set_interrupt s None) (map Print (firstn k lines))).
Proof.
  intros Hk Hr Hlines.
  rewrite (print_tree_emits cluster_url r d s Hr), tree_lines_render.
  rewrite <- Hlines. rewrite (emit_all_run _ s k Hk).
  now rewrite length_map, firstn_map.
Qed.

Lemma print_tree_interrupted_witness :
  print_tree "u" 0%nat
    (mkState [] (Some 2%nat) [[("A", ["t1"]); ("B", [])]])
  = (Raise KeyboardInterrupt,
     mkState [Print (TreeStyle.CLUSTER +:+ "u");
              Print (TreeStyle.TEE +:+ TreeStyle.DATABASE +:+ "A")]
       None [[("A", ["t1"]); ("B", [])]]).
Proof.
  exact (print_tree_interrupted "u" 0%nat [("A", ["t1"]); ("B", [])]
           (mkState [] (Some 2%nat) [[("A", ["t1"]); ("B", [])]])
           2%nat _ eq_refl eq_refl eq_refl).
Defined.

(** ** Further properties of the whole run *)

Lemma mgmt_calls_add (s : State) (es : list Event) :
  mgmt_calls (add_events s es) = mgmt_calls s ++ filter is_mgmt es.
Proof. unfold mgmt_calls. simpl. apply filter_app. Qed.

Lemma filter_is_mgmt_Print (lines : list string) :
  filter is_mgmt (map Print lines) = [].
Proof. induction lines as [|x l IH]; simpl; [reflexivity | exact IH]. Qed.

Lemma get_databases_total (w : World) (client : KustoClient) (s : State) :
  interrupt s = None ->
  benign w ->
  exists databases es,
    get_databases w client s
    = (Ok databases, add_events s (fetching_databases ++ es)) /\
    filter is_mgmt es = [].
Proof.
  intros Hq Hb. rewrite (get_databases_quiet w client s Hq). cbv zeta.
  destruct (listing "DatabaseName" _) as [databases|e] eqn:Hl.
  - exists databases. eexists. rewrite add_events_app.
    split; reflexivity.
  - pose proof (listing_raises _ _ _ _ _ _ _ Hb Hl) as He.
    destruct e; try discriminate.
    exists []. eexists. rewrite add_events_app. split; reflexivity.
Qed.

Lemma main_no_databases (w : World) (s0 sa sb s : State)
    (cluster_url : string) (client : KustoClient) :
  parse_args w s0 = (Ok cluster_url, sa) ->
  connect_to_kusto w cluster_url sa = (Ok client, sb) ->
  get_databases w client sb = (Ok [], s) ->
  interrupt s = None ->
  main w s0
  = (Ok tt,
     add_events s
       [Print "No databases found or unable to fetch databases."]).
Proof.
  intros Hp Hc Hg Hq. unfold main, main_try.
  rewrite (bind_Ok _ _ _ _ _ Hp), (bind_Ok _ _ _ _ _ Hc),
    (bind_Ok _ _ _ _ _ Hg).
  now rewrite (print_quiet _ s Hq).
Qed.

(** X13.  Listing failures do not change how [main] ends.  Once the
    arguments are parsed and the connector has returned, with no Ctrl-C, a
    server whose failures are [Exception]s and prints that succeed (a
    [print] here always does), [main] returns normally whatever listing
    fails: the process ends with status 0.  On the way it sends
    [.show databases] once and then [.show tables] once for each name the
    first listing returned, in that order, and no other management
    command. *)
Theorem main_once_connected (w : World) (s : State) (cluster_url : string)
    (credential : Credential) (connection_string : ConnectionString)
    (client : KustoClient) :
  interrupt s = None ->
  benign w ->
  argparse_result w = Ok cluster_url ->
  DefaultAzureCredential w = Ok credential ->
  with_azure_token_credential w cluster_url credential
  = Ok connection_string ->
  KustoClient_init w connection_string = Ok client ->
  exists databases s1 s',
    get_databases w client
      (add_events s (CallParseArgs :: connected cluster_url))
    = (Ok databases, s1) /\
    main w s = (Ok tt, s') /\
    process_end (fst (main w s)) = Exited 0 /\
    mgmt_calls s'
    = mgmt_calls s
      ++ CallMgmt "" ".show databases" :: map show_tables databases.
Proof.
  intros Hq Hb Ha H1 H2 H3.
  assert (Hp : parse_args w s
               = (Ok cluster_url, add_events s [CallParseArgs])).
  { rewrite (parse_args_quiet w s Hq). now rewrite Ha. }
  assert (Hc : connect_to_kusto w cluster_url (add_events s [CallParseArgs])
               = (Ok client,
                  add_events s (CallParseArgs :: connected cluster_url))).
  { rewrite (connect_to_kusto_quiet w cluster_url credential
               connection_string client (add_events s [CallParseArgs])
               Hq H1 H2 H3).
    now rewrite add_events_app. }
  destruct (get_databases_total w client
              (add_events s (CallParseArgs :: connected cluster_url)) Hq Hb)
    as [databases [es [Hg Hes]]].
  set (sg := add_events
               (add_events s (CallParseArgs :: connected cluster_url))
               (fetching_databases ++ es)) in *.
  assert (Hqg : interrupt sg = None) by exact Hq.
  assert (Hcalls : mgmt_calls sg
                   = mgmt_calls s ++ [CallMgmt "" ".show databases"]).
  { unfold sg. rewrite !mgmt_calls_add, !filter_app, Hes. simpl.
    now rewrite !app_nil_r. }
  exists databases, sg.
  destruct databases as [|db rest].
  - eexists. split; [exact Hg|].
    rewrite (main_no_databases w s _ _ sg cluster_url client Hp Hc Hg Hqg).
    split; [reflexivity|]. split; [reflexivity|].
    rewrite mgmt_calls_add, Hcalls. simpl. now rewrite app_nil_r.
  - destruct (fetch_all_tables_total w client (db :: rest) sg Hqg Hb)
      as [results [es2 [_ [Hf [Hm _]]]]].
    eexists. split; [exact Hg|].
    rewrite (main_renders w s _ _ sg _ cluster_url client (db :: rest) _
               (assign_all [] (db :: rest) results) Hp Hc Hg
               ltac:(discriminate) Hf Hqg).
    + split; [reflexivity|]. split; [reflexivity|].
      rewrite mgmt_calls_add, mgmt_calls_add_events, Hm, Hcalls.
      rewrite filter_app, filter_is_mgmt_Print. simpl.
      rewrite app_nil_r. now rewrite <- app_assoc.
    + simpl. rewrite nth_error_app2 by lia. now rewrite Nat.sub_diag.
Qed.

Lemma main_once_connected_witness :
  exists s',
    main sample_world initial = (Ok tt, s') /\
    process_end (fst (main sample_world initial)) = Exited 0 /\
    mgmt_calls s'
    = [CallMgmt "" ".show databases"; show_tables "C"; show_tables "B";
       show_tables "A"].
Proof.
  destruct (main_once_connected sample_world initial
              "https://c.kusto.windows.net" 7%nat
              ("https://c.kusto.windows.net", 7%nat)
              ("https://c.kusto.windows.net", 7%nat)
              eq_refl sample_world_benign eq_refl eq_refl eq_refl eq_refl)
    as [databases [s1 [s' [Hg [Hmain [Hend Hcalls]]]]]].
  exists s'. split; [exact Hmain|]. split; [exact Hend|].
  rewrite Hcalls. vm_compute in Hg. inversion Hg; subst. reflexivity.
Defined.

Lemma dict_get_In_keys (d : Dict) (k : string) :
  In k (keys d) -> exists v, dict_get d k = Some v.
Proof.
  induction d as [|[k' v'] d IH]; simpl; [contradiction|].
  intros [Heq|Hin].
  - subst k'. rewrite String.eqb_refl. now exists v'.
  - destruct (String.eqb k' k); [now exists v' | now apply IH].
Qed.

(** X14.  The loop allocates one dict and leaves every other object alone;
    the map it builds has no key twice, its keys are exactly the names
    [get_databases] returned, and every such name can be looked up. *)
Theorem built_map_keys (w : World) (client : KustoClient)
    (databases : list string) (s : State) :
  interrupt s = None ->
  benign w ->
  exists d s1,
    fetch_all_tables w client databases s
    = (Ok (List.length (heap s)), s1) /\
    heap s1 = heap s ++ [d] /\
    NoDup (keys d) /\
    (forall k, In k (keys d) <-> In k databases) /\
    (forall k, In k databases -> exists tables, dict_get d k = Some tables).
Proof.
  intros Hq Hb.
  destruct (fetch_all_tables_total w client databases s Hq Hb)
    as [results [es [_ [Hf [_ Hall]]]]].
  pose proof (Forall2_length Hall) as Hlen. symmetry in Hlen.
  assert (Hkeys : keys (assign_all [] databases results)
                  = first_occurrences [] databases).
  { now rewrite keys_assign_all. }
  assert (Hiff : forall k, In k (keys (assign_all [] databases results))
                           <-> In k databases).
  { intros k. rewrite Hkeys, first_occurrences_In. simpl. tauto. }
  exists (assign_all [] databases results). eexists.
  split; [exact Hf|]. split; [reflexivity|]. split.
  - rewrite Hkeys. apply NoDup_first_occurrences.
  - split; [exact Hiff|].
    intros k Hin. apply dict_get_In_keys. now apply Hiff.
Qed.

Lemma built_map_keys_witness :
  exists d s1,
    fetch_all_tables repeating_world ("u", 7%nat) ["A"; "B"; "A"] initial
    = (Ok 0%nat, s1) /\
    heap s1 = [d] /\ NoDup (keys d) /\
    (In "A" (keys d) /\ In "B" (keys d)).
Proof.
  destruct (built_map_keys repeating_world ("u", 7%nat) ["A"; "B"; "A"]
              initial eq_refl repeating_world_benign)
    as [d [s1 [Hf [Hh [Hnd [Hiff _]]]]]].
  exists d, s1. split; [exact Hf|]. split; [exact Hh|].
  split; [exact Hnd|].
  split; apply Hiff; simpl; tauto.
Defined.

(** *** The tree determines the map *)

Lemma append_inj_l (p x y : string) : p +:+ x = p +:+ y -> x = y.
Proof.
  induction p as [|c p IH]; simpl; intros H; [exact H|].
  inversion H. now apply IH.
Qed.

Lemma indented_table_line (db_prefix marker rest : string) :
  db_prefix = TreeStyle.PIPE \/ db_prefix = TreeStyle.SPACE ->
  indented (db_prefix +:+ marker +:+ rest) = true.
Proof.
  intros [->| ->]; unfold indented.
  - replace (String.prefix TreeStyle.PIPE
               (TreeStyle.PIPE +:+ marker +:+ rest)) with true;
      [reflexivity|].
    symmetry. vm_compute TreeStyle.PIPE. simpl.
    now destruct (marker +:+ rest).
  - replace (String.prefix TreeStyle.SPACE
               (TreeStyle.SPACE +:+ marker +:+ rest)) with true;
      [apply orb_true_r|].
    symmetry. vm_compute TreeStyle.SPACE. simpl.
    now destruct (marker +:+ rest).
Qed.

Lemma not_indented_database_line (marker db : string) :
  marker = TreeStyle.TEE \/ marker = TreeStyle.ELBOW ->
  indented (marker +:+ TreeStyle.DATABASE +:+ db) = false.
Proof.
  intros [->| ->]; reflexivity.
Qed.

Lemma render_tables_single (db_prefix table : string) :
  render_tables db_prefix [table]
  = [db_prefix +:+ TreeStyle.ELBOW +:+ TreeStyle.TABLE +:+ table].
Proof. reflexivity. Qed.

Lemma render_tables_more (db_prefix table table' : string)
    (rest : list string) :
  render_tables db_prefix (table :: table' :: rest)
  = (db_prefix +:+ TreeStyle.TEE +:+ TreeStyle.TABLE +:+ table)
    :: render_tables db_prefix (table' :: rest).
Proof. reflexivity. Qed.

Lemma render_databases_single (db : string) (tables : list string) :
  render_databases [(db, tables)]
  = (TreeStyle.ELBOW +:+ TreeStyle.DATABASE +:+ db)
    :: render_tables TreeStyle.SPACE tables.
Proof. reflexivity. Qed.

Lemma render_databases_more (db : string) (tables : list string)
    (kv : string * list string) (rest : Dict) :
  render_databases ((db, tables) :: kv :: rest)
  = (TreeStyle.TEE +:+ TreeStyle.DATABASE +:+ db)
    :: render_tables TreeStyle.PIPE tables ++ render_databases (kv :: rest).
Proof. reflexivity. Qed.

Lemma render_tables_indented (db_prefix : string) (tables : list string) :
  db_prefix = TreeStyle.PIPE \/ db_prefix = TreeStyle.SPACE ->
  forallb indented (render_tables db_prefix tables) = true.
Proof.
  intros Hp. induction tables as [|table rest IH]; [reflexivity|].
  destruct rest as [|table' rest].
  - rewrite render_tables_single. cbn [forallb].
    now rewrite (indented_table_line _ _ _ Hp).
  - rewrite render_tables_more. cbn [forallb].
    now rewrite (indented_table_line _ _ _ Hp), IH.
Qed.

Lemma render_databases_head (d : Dict) :
  match render_databases d with
  | [] => d = []
  | line :: _ => indented line = false
  end.
Proof.
  destruct d as [|[db tables] [|kv rest]]; [reflexivity| |].
  - rewrite render_databases_single. apply not_indented_database_line.
    now right.
  - rewrite render_databases_more. apply not_indented_database_line.
    now left.
Qed.

(** Table lines followed by database lines split in one way only. *)
Lemma app_split_indented (a1 a2 b1 b2 : list string) :
  forallb indented a1 = true ->
  forallb indented a2 = true ->
  match b1 with [] => True | line :: _ => indented line = false end ->
  match b2 with [] => True | line :: _ => indented line = false end ->
  a1 ++ b1 = a2 ++ b2 ->
  a1 = a2 /\ b1 = b2.
Proof.
  revert a2. induction a1 as [|x a1 IH]; intros [|y a2] H1 H2 Hb1 Hb2 Heq;
    simpl in *.
  - now split.
  - subst b1. apply andb_prop in H2. destruct H2 as [Hy _]. congruence.
  - subst b2. apply andb_prop in H1. destruct H1 as [Hx _]. congruence.
  - apply andb_prop in H1. apply andb_prop in H2.
    inversion Heq; subst.
    destruct (IH a2 (proj2 H1) (proj2 H2) Hb1 Hb2 H3) as [-> ->].
    now split.
Qed.

Lemma table_line_inj (p1 p2 m1 m2 a b : string) :
  p1 = TreeStyle.PIPE \/ p1 = TreeStyle.SPACE ->
  p2 = TreeStyle.PIPE \/ p2 = TreeStyle.SPACE ->
  m1 = TreeStyle.TEE \/ m1 = TreeStyle.ELBOW ->
  m2 = TreeStyle.TEE \/ m2 = TreeStyle.ELBOW ->
  p1 +:+ m1 +:+ TreeStyle.TABLE +:+ a = p2 +:+ m2 +:+ TreeStyle.TABLE +:+ b ->
  a = b.
Proof.
  intros [->| ->] [->| ->] [->| ->] [->| ->] H;
    first [ now do 3 apply append_inj_l in H
          | exfalso; vm_compute in H; discriminate ].
Qed.

Lemma database_line_inj (m1 m2 a b : string) :
  m1 = TreeStyle.TEE \/ m1 = TreeStyle.ELBOW ->
  m2 = TreeStyle.TEE \/ m2 = TreeStyle.ELBOW ->
  m1 +:+ TreeStyle.DATABASE +:+ a = m2 +:+ TreeStyle.DATABASE +:+ b ->
  m1 = m2 /\ a = b.
Proof.
  intros [->| ->] [->| ->] H;
    first [ split; [reflexivity | now do 2 apply append_inj_l in H]
          | exfalso; vm_compute in H; discriminate ].
Qed.

Lemma render_tables_nonempty (db_prefix table : string)
    (rest : list string) :
  render_tables db_prefix (table :: rest) <> [].
Proof. destruct rest; discriminate. Qed.

Lemma cons_eq_inv {A : Type} (x y : A) (l l' : list A) :
  x :: l = y :: l' -> x = y /\ l = l'.
Proof. intros H. injection H. auto. Qed.

Lemma render_tables_inj (p1 p2 : string) (t1 : list string) :
  p1 = TreeStyle.PIPE \/ p1 = TreeStyle.SPACE ->
  p2 = TreeStyle.PIPE \/ p2 = TreeStyle.SPACE ->
  forall t2,
    render_tables p1 t1 = render_tables p2 t2 -> t1 = t2.
Proof.
  intros Hp1 Hp2. induction t1 as [|a r1 IH]; intros [|b r2] H.
  - reflexivity.
  - symmetry in H. now apply render_tables_nonempty in H.
  - now apply render_tables_nonempty in H.
  - destruct r1 as [|c1 r1]; destruct r2 as [|c2 r2].
    + rewrite !render_tables_single in H. apply cons_eq_inv in H. destruct H as [Hl _].
      f_equal. apply (table_line_inj p1 p2 _ _ a b Hp1 Hp2) in Hl;
        [exact Hl | now right | now right].
    + rewrite render_tables_single, render_tables_more in H.
      apply cons_eq_inv in H. destruct H as [Hl Ht]. symmetry in Ht.
      now apply render_tables_nonempty in Ht.
    + rewrite render_tables_single, render_tables_more in H.
      apply cons_eq_inv in H. destruct H as [Hl Ht]. now apply render_tables_nonempty in Ht.
    + rewrite !render_tables_more in H. apply cons_eq_inv in H. destruct H as [Hl Ht].
      apply (table_line_inj p1 p2 _ _ a b Hp1 Hp2) in Hl;
        [| now left | now left].
      subst b. f_equal. now apply IH.
Qed.

Lemma render_databases_nonempty (kv : string * list string) (rest : Dict) :
  render_databases (kv :: rest) <> [].
Proof. destruct kv as [db tables]. destruct rest; discriminate. Qed.

Lemma render_databases_inj (d1 : Dict) :
  forall d2, render_databases d1 = render_databases d2 -> d1 = d2.
Proof.
  induction d1 as [|[db1 t1] r1 IH]; intros [|[db2 t2] r2] H.
  - reflexivity.
  - symmetry in H. now apply render_databases_nonempty in H.
  - now apply render_databases_nonempty in H.
  - destruct r1 as [|kv1 r1]; destruct r2 as [|kv2 r2].
    + rewrite !render_databases_single in H. apply cons_eq_inv in H. destruct H as [Hl Ht].
      apply database_line_inj in Hl; [|now right|now right].
      destruct Hl as [_ ->].
      apply render_tables_inj in Ht; [now subst | now right | now right].
    + rewrite render_databases_single, render_databases_more in H.
      apply cons_eq_inv in H. destruct H as [Hl Ht].
      apply database_line_inj in Hl; [|now right|now left].
      destruct Hl as [Hm _]. vm_compute in Hm. discriminate.
    + rewrite render_databases_single, render_databases_more in H.
      apply cons_eq_inv in H. destruct H as [Hl Ht].
      apply database_line_inj in Hl; [|now left|now right].
      destruct Hl as [Hm _]. vm_compute in Hm. discriminate.
    + rewrite !render_databases_more in H. apply cons_eq_inv in H. destruct H as [Hl Ht].
      apply database_line_inj in Hl; [|now left|now left].
      destruct Hl as [_ ->].
      apply app_split_indented in Ht.
      * destruct Ht as [Ht Hr].
        apply render_tables_inj in Ht; [|now left|now left].
        subst t2. f_equal. now apply IH.
      * apply render_tables_indented. now left.
      * apply render_tables_indented. now left.
      * pose proof (render_databases_head (kv1 :: r1)) as Hh.
        destruct (render_databases (kv1 :: r1)); [exact I | exact Hh].
      * pose proof (render_databases_head (kv2 :: r2)) as Hh.
        destruct (render_databases (kv2 :: r2)); [exact I | exact Hh].
Qed.

Lemma map_Print_inj (l1 l2 : list string) :
  map Print l1 = map Print l2 -> l1 = l2.
Proof.
  revert l2. induction l1 as [|x l1 IH]; intros [|y l2] H;
    try discriminate; [reflexivity|].
  inversion H. f_equal. now apply IH.
Qed.

Lemma add_events_inj (s : State) (es1 es2 : list Event) :
  add_events s es1 = add_events s es2 -> es1 = es2.
Proof.
  intros H. apply (f_equal trace) in H. rewrite !trace_add_events in H.
  now apply app_inv_head in H.
Qed.

(** X15.  The printed lines determine what was printed: two calls of
    [print_tree] that print the same sequence of lines were given the same
    cluster URL and the same map, names, tables and order. *)
Theorem tree_determines_map (url1 url2 : string) (d1 d2 : Dict)
    (r1 r2 : ref) (s1 s2 : State) (out : list Event) :
  interrupt s1 = None ->
  nth_error (heap s1) r1 = Some d1 ->
  interrupt s2 = None ->
  nth_error (heap s2) r2 = Some d2 ->
  print_tree url1 r1 s1 = (Ok tt, add_events s1 out) ->
  print_tree url2 r2 s2 = (Ok tt, add_events s2 out) ->
  url1 = url2 /\ d1 = d2.
Proof.
  intros Hq1 Hr1 Hq2 Hr2 H1 H2.
  rewrite (print_tree_quiet url1 r1 d1 s1 Hq1 Hr1) in H1.
  rewrite (print_tree_quiet url2 r2 d2 s2 Hq2 Hr2) in H2.
  apply (f_equal snd) in H1. apply (f_equal snd) in H2.
  cbn [snd] in H1, H2. rename H1 into He1. rename H2 into He2.
  apply add_events_inj in He1. apply add_events_inj in He2.
  rewrite <- He2 in He1. apply map_Print_inj in He1.
  rewrite !tree_lines_render in He1.
  apply cons_eq_inv in He1. destruct He1 as [Hu Hd].
  split.
  - now apply append_inj_l in Hu.
  - now apply render_databases_inj.
Qed.

Lemma tree_determines_map_witness :
  "u" = "u" /\
  [("B", ["z"; "a"]); ("A", [])] = [("B", ["z"; "a"]); ("A", [])].
Proof.
  exact (tree_determines_map "u" "u"
           [("B", ["z"; "a"]); ("A", [])] [("B", ["z"; "a"]); ("A", [])]
           0%nat 1%nat
           (mkState [] None [[("B", ["z"; "a"]); ("A", [])]])
           (mkState [LogInfo "x"] None
              [[]; [("B", ["z"; "a"]); ("A", [])]])
           (map Print
              (tree_lines "u" [("B", ["z"; "a"]); ("A", [])]))
           eq_refl eq_refl eq_refl eq_refl eq_refl eq_refl).
Defined.
